(** * The Termux RPC client of xiaozhi_app (android/api.py)

    A shallow embedding of [TermuxRpcClient] and its three command
    variants: the mutable attributes of one command instance are a record,
    every method is a function in a small state-and-exception monad, and the
    socket is a script of what each call will answer.  Python library
    functions the client calls (codecs, [json], [str] methods) are the fields
    of a [pylib] record: general theorems hold for every library, evaluations
    use the instance [cpython_ascii] defined below. *)

From Stdlib Require Import String Ascii List ZArith Bool Lia.
From Stdlib Require Import Strings.Byte.
Import ListNotations.
Set Warnings "-register-all".
Open Scope string_scope.
Open Scope list_scope.

(** ** Python values *)

(** What [json.loads] returns.  A number keeps its literal: the client never
    computes with one.  An object is its items in insertion order. *)
Inductive json : Type :=
| JNull
| JBool (b : bool)
| JNum (lexeme : string)
| JStr (s : string)
| JArr (items : list json)
| JObj (members : list (string * json)).

(** The exceptions ([Exception] subclasses) that can reach the client. *)
Inductive exn : Type :=
| socket_timeout
| ConnectionRefusedError
| OSError (msg : string)
| NotImplementedError (msg : string)
| ValueError (msg : string)
| KeyError (key : string)
| TypeError (msg : string)
| AttributeError (msg : string)
| UnicodeDecodeError.

Inductive res (A : Type) : Type :=
| Ok (a : A)
| Raise (e : exn).
Arguments Ok {A} a.
Arguments Raise {A} e.

(** The library functions the client relies on.  [bytes_decode] is
    [bytes.decode()] ([None]: UnicodeDecodeError), [json_loads] is
    [json.loads] ([None]: JSONDecodeError), [py_repr] renders a value that is
    not a string inside an f-string, [num_is_zero] is the truth value of a
    number, [exn_str] is [str(e)], [set_order] the iteration order of a set of
    strings. *)
Record pylib : Type := {
  bytes_decode : list byte -> option string;
  str_encode : string -> list byte;
  str_strip : string -> string;
  str_lower : string -> string;
  json_loads : string -> option json;
  json_dumps : json -> string;
  py_repr : json -> string;
  num_is_zero : string -> bool;
  exn_str : exn -> string;
  set_order : list string -> list string
}.

(** [needle in hay] on two strings. *)
Fixpoint contains (needle hay : string) : bool :=
  String.prefix needle hay
  || match hay with
     | EmptyString => false
     | String _ hay' => contains needle hay'
     end.

Definition is_str (k : string) (v : json) : bool :=
  match v with
  | JStr s => String.eqb k s
  | _ => false
  end.

Definition has_key (k : string) (members : list (string * json)) : bool :=
  existsb (fun kv => String.eqb k (fst kv)) members.

Fixpoint dict_get (k : string) (members : list (string * json)) : option json :=
  match members with
  | [] => None
  | (k', v) :: rest => if String.eqb k k' then Some v else dict_get k rest
  end.

(** [d[k] = v] on a dict: replace in place, or append. *)
Fixpoint dict_set (k : string) (v : json) (members : list (string * json))
  : list (string * json) :=
  match members with
  | [] => [(k, v)]
  | (k', v') :: rest =>
      if String.eqb k k' then (k, v) :: rest else (k', v') :: dict_set k v rest
  end.

Definition dict_update (members extra : list (string * json))
  : list (string * json) :=
  fold_left (fun acc kv => dict_set (fst kv) (snd kv) acc) extra members.

(** [k in v]: key membership on a dict, element membership on a list, substring
    on a str, TypeError on anything else. *)
Definition py_in (k : string) (v : json) : res bool :=
  match v with
  | JObj members => Ok (has_key k members)
  | JArr items => Ok (existsb (is_str k) items)
  | JStr s => Ok (contains k s)
  | _ => Raise (TypeError "argument is not iterable")
  end.

(** [v[k]] with a str key. *)
Definition py_getitem (v : json) (k : string) : res json :=
  match v with
  | JObj members =>
      match dict_get k members with
      | Some x => Ok x
      | None => Raise (KeyError k)
      end
  | JArr _ => Raise (TypeError "list indices must be integers or slices, not str")
  | JStr _ => Raise (TypeError "string indices must be integers")
  | _ => Raise (TypeError "object is not subscriptable")
  end.

(** [for x in v]: the items a loop visits. *)
Definition py_iter (v : json) : res (list json) :=
  match v with
  | JArr items => Ok items
  | JObj members => Ok (map (fun kv => JStr (fst kv)) members)
  | JStr s => Ok (map (fun c => JStr (String c EmptyString)) (list_ascii_of_string s))
  | _ => Raise (TypeError "object is not iterable")
  end.

Section Client.

Variable lib : pylib.

(** Truth value of a Python value, as [not v] tests it. *)
Definition truthy (v : json) : bool :=
  match v with
  | JNull => false
  | JBool b => b
  | JNum lexeme => negb (num_is_zero lib lexeme)
  | JStr s => negb (String.eqb s EmptyString)
  | JArr items => match items with [] => false | _ => true end
  | JObj members => match members with [] => false | _ => true end
  end.

(** A value inside an f-string. *)
Definition py_format (v : json) : string :=
  match v with
  | JStr s => s
  | _ => py_repr lib v
  end.

(** ** The network as the client sees it *)

Inductive recv_event : Type :=
| RecvBytes (bs : list byte)     (* recv returns bs; the empty bs is a closed peer *)
| RecvRaise (e : exn).

(** What each socket call of one conversation will do.  A read past the end
    of [inbound] finds the peer closed. *)
Record network : Type := {
  socket_raises : option exn;
  connect_raises : option exn;
  sendall_raises : option exn;
  inbound : list recv_event;
  close_raises : option exn
}.

Record sock : Type := { close_outcome : option exn }.

(** ** Commands *)

Inductive variant : Type :=
| TermuxRpcClient
| TermuxLocationCommand (provider request : string)
| TermuxNotificationListCommand (remove_keys : json)
| TermuxNotificationRemoveCommand (notification_id : string).

Definition API_METHOD (v : variant) : option string :=
  match v with
  | TermuxRpcClient => None
  | TermuxLocationCommand _ _ => Some "Location"
  | TermuxNotificationListCommand _ => Some "NotificationList"
  | TermuxNotificationRemoveCommand _ => Some "NotificationRemove"
  end.

Definition DEFAULT_TIMEOUT : Z := 10.

(** The attributes fixed at construction. *)
Record params : Type := {
  host : string;
  port : Z;
  timeout : Z;
  cmd : variant
}.

Inductive debug : Type :=
| LogConnecting (h : string) (p : Z)
| LogSending (text : string)
| LogJsonFailed (line : string)
| LogApiError (msg : json)
| LogPermission (name granted : json)
| LogCloseError (e : exn).

(** What a conversation does, in order: socket calls, debug lines, the write
    of the stop flag and the entry of each handler. *)
Inductive event : Type :=
| EvSocket
| EvConnect (h : string) (p : Z)
| EvSendAll (payload : list byte)
| EvRecv
| EvClose
| EvStop
| EvDebug (d : debug)
| EvHandleError (msg : json)
| EvHandlePermissions (perms : json)
| EvHandleData (data : json).

(** The mutable attributes of one command instance, and the events so far. *)
Record client : Type := {
  _socket : option sock;
  _data : list byte;
  _result : option json;
  _error : option json;
  _event_stop : bool;
  trace : list event
}.

Definition new_client : client :=
  {| _socket := None; _data := []; _result := None; _error := None;
     _event_stop := false; trace := [] |}.

Definition set_socket (x : option sock) (s : client) : client :=
  {| _socket := x; _data := _data s; _result := _result s; _error := _error s;
     _event_stop := _event_stop s; trace := trace s |}.
Definition set_data (x : list byte) (s : client) : client :=
  {| _socket := _socket s; _data := x; _result := _result s; _error := _error s;
     _event_stop := _event_stop s; trace := trace s |}.
Definition set_result (x : option json) (s : client) : client :=
  {| _socket := _socket s; _data := _data s; _result := x; _error := _error s;
     _event_stop := _event_stop s; trace := trace s |}.
Definition set_error (x : option json) (s : client) : client :=
  {| _socket := _socket s; _data := _data s; _result := _result s; _error := x;
     _event_stop := _event_stop s; trace := trace s |}.
Definition set_event_stop (x : bool) (s : client) : client :=
  {| _socket := _socket s; _data := _data s; _result := _result s; _error := _error s;
     _event_stop := x; trace := trace s |}.
Definition emit (e : event) (s : client) : client :=
  {| _socket := _socket s; _data := _data s; _result := _result s; _error := _error s;
     _event_stop := _event_stop s; trace := trace s ++ [e] |}.

(** ** The monad of methods *)

Definition M (A : Type) : Type := client -> res A * client.

Definition ret {A} (a : A) : M A := fun s => (Ok a, s).
Definition raise {A} (e : exn) : M A := fun s => (Raise e, s).
Definition bind {A B} (m : M A) (k : A -> M B) : M B :=
  fun s =>
    match m s with
    | (Ok a, s') => k a s'
    | (Raise e, s') => (Raise e, s')
    end.
Definition update (f : client -> client) : M unit := fun s => (Ok tt, f s).
Definition read {A} (f : client -> A) : M A := fun s => (Ok (f s), s).
Definition lift {A} (r : res A) : M A := fun s => (r, s).

(** [try: m except Exception as e: h e] *)
Definition try_except {A} (m : M A) (h : exn -> M A) : M A :=
  fun s =>
    match m s with
    | (Ok a, s') => (Ok a, s')
    | (Raise e, s') => h e s'
    end.

(** [try: m finally: f] *)
Definition try_finally {A} (m : M A) (f : M unit) : M A :=
  fun s =>
    match m s with
    | (r, s') =>
        match f s' with
        | (Ok _, s'') => (r, s'')
        | (Raise e, s'') => (Raise e, s'')
        end
    end.

Notation "x <- m ;; k" := (bind m (fun x => k))
  (at level 61, m at next level, right associativity).
Notation "m ;;; k" := (bind m (fun _ => k))
  (at level 61, right associativity).

(** ** TermuxRpcClient *)

Definition disconnect : M unit :=
  update (emit EvStop) ;;;
  update (set_event_stop true) ;;;
  sk <- read _socket ;;
  match sk with
  | None => ret tt
  | Some k =>
      try_finally
        (try_except
           (update (emit EvClose) ;;;
            match close_outcome k with
            | Some e => raise e
            | None => ret tt
            end)
           (fun e => update (emit (EvDebug (LogCloseError e)))))
        (update (set_socket None))
  end.

Definition _connect (p : params) (net : network) : M unit :=
  update (emit (EvDebug (LogConnecting (host p) (port p)))) ;;;
  match socket_raises net with
  | Some e => raise e
  | None =>
      update (emit EvSocket) ;;;
      update (set_socket (Some {| close_outcome := close_raises net |})) ;;;
      (if (timeout p <? 0)%Z then raise (ValueError "Timeout value out of range")
       else ret tt) ;;;
      update (emit (EvConnect (host p) (port p))) ;;;
      match connect_raises net with
      | Some e => raise e
      | None => ret tt
      end
  end.

Definition base_to_dict (v : variant) : res (list (string * json)) :=
  match API_METHOD v with
  | None => Raise (NotImplementedError "API_METHOD must be defined in subclass")
  | Some m => Ok [("extras", JObj [("api_method", JStr m)])]
  end.

(** [params['extras'].update(extra)] *)
Definition update_extras (extra : list (string * json))
    (d : list (string * json)) : res (list (string * json)) :=
  match py_getitem (JObj d) "extras" with
  | Ok (JObj ex) => Ok (dict_set "extras" (JObj (dict_update ex extra)) d)
  | Ok _ => Raise (AttributeError "object has no attribute update")
  | Raise e => Raise e
  end.

Definition to_dict (v : variant) : res json :=
  match base_to_dict v with
  | Raise e => Raise e
  | Ok d =>
      match v with
      | TermuxRpcClient => Ok (JObj d)
      | TermuxLocationCommand provider request =>
          match update_extras [("provider", JStr provider); ("request", JStr request)] d with
          | Ok d' => Ok (JObj d')
          | Raise e => Raise e
          end
      | TermuxNotificationListCommand remove_keys =>
          match update_extras [("keys", remove_keys)] d with
          | Ok d' => Ok (JObj d')
          | Raise e => Raise e
          end
      | TermuxNotificationRemoveCommand notification_id =>
          match update_extras [("id", JStr notification_id)] d with
          | Ok d' => Ok (JObj d')
          | Raise e => Raise e
          end
      end
  end.

Definition to_json (v : variant) : res string :=
  match to_dict v with
  | Ok d => Ok (json_dumps lib d)
  | Raise e => Raise e
  end.

Definition _send_request (p : params) (net : network) : M unit :=
  sk <- read _socket ;;
  match sk with
  | None => ret tt
  | Some _ =>
      text <- lift (to_json (cmd p)) ;;
      update (emit (EvDebug (LogSending text))) ;;;
      text' <- lift (to_json (cmd p)) ;;
      update (emit (EvSendAll (str_encode lib text' ++ [x0a]))) ;;;
      match sendall_raises net with
      | Some e => raise e
      | None => ret tt
      end
  end.

Definition _handle_data (v : variant) (data : json) : M unit :=
  update (emit (EvHandleData data)) ;;;
  match v with
  | TermuxRpcClient => raise (NotImplementedError "")
  | TermuxLocationCommand _ _ =>
      b <- lift (py_in "latitude" data) ;;
      if b then update (set_result (Some data)) ;;; disconnect else ret tt
  | TermuxNotificationListCommand _ =>
      update (set_result (Some data)) ;;; disconnect
  | TermuxNotificationRemoveCommand _ =>
      update (set_result (Some data)) ;;; disconnect
  end.

Definition _handle_error (error_msg : json) : M unit :=
  update (emit (EvHandleError error_msg)) ;;;
  update (set_error (Some error_msg)) ;;;
  update (emit (EvDebug (LogApiError error_msg))) ;;;
  disconnect.

(** The body of [for perm in permissions]. *)
Definition permission_step (perm : json) : M unit :=
  name <- lift (py_getitem perm "permission") ;;
  granted <- lift (py_getitem perm "granted") ;;
  update (emit (EvDebug (LogPermission name granted))) ;;;
  if negb (truthy granted) then
    update (set_error (Some (JStr ("Permission denied: " ++ py_format name)))) ;;;
    disconnect
  else ret tt.

Fixpoint permission_loop (perms : list json) : M unit :=
  match perms with
  | [] => ret tt
  | perm :: rest => permission_step perm ;;; permission_loop rest
  end.

Definition _handle_permissions (permissions : json) : M unit :=
  update (emit (EvHandlePermissions permissions)) ;;;
  perms <- lift (py_iter permissions) ;;
  permission_loop perms.

Definition _handle_response (v : variant) (data : json) : M unit :=
  is_error <- lift (py_in "error" data) ;;
  if is_error then
    msg <- lift (py_getitem data "error") ;;
    _handle_error msg
  else
    is_perm <- lift (py_in "permissions" data) ;;
    if is_perm then
      perms <- lift (py_getitem data "permissions") ;;
      _handle_permissions perms
    else _handle_data v data.

Definition _process_line (v : variant) (line : string) : M unit :=
  match json_loads lib line with
  | Some data => _handle_response v data
  | None =>
      update (set_error (Some (JStr ("Invalid JSON: " ++ line)))) ;;;
      update (emit (EvDebug (LogJsonFailed line)))
  end.

(** [for byte in response]: append, and on a newline decode, strip, clear and
    dispatch. *)
Fixpoint feed (v : variant) (response : list byte) : M unit :=
  match response with
  | [] => ret tt
  | b :: rest =>
      update (fun s => set_data (_data s ++ [b]) s) ;;;
      (if Byte.eqb b x0a then
         data <- read _data ;;
         match bytes_decode lib data with
         | None => raise UnicodeDecodeError
         | Some text =>
             update (set_data []) ;;;
             _process_line v (str_strip lib text)
         end
       else ret tt) ;;;
      feed v rest
  end.

Definition is_socket_timeout (e : exn) : bool :=
  match e with
  | socket_timeout => true
  | _ => false
  end.

Definition receive_timed_out : M unit :=
  update (set_error (Some (JStr "Receive timed out"))).

(** [while not self._event_stop], one iteration per entry of the script. *)
Fixpoint receive_loop (v : variant) (script : list recv_event) : M unit :=
  fun s =>
    if _event_stop s then (Ok tt, s)
    else
      match _socket s with
      | None => (Raise (AttributeError "NoneType object has no attribute recv"), s)
      | Some _ =>
          let s0 := emit EvRecv s in
          match script with
          | [] => (Ok tt, s0)
          | RecvRaise e :: _ =>
              if is_socket_timeout e then receive_timed_out s0 else (Raise e, s0)
          | RecvBytes [] :: _ => (Ok tt, s0)
          | RecvBytes response :: rest =>
              match feed v response s0 with
              | (Ok _, s1) => receive_loop v rest s1
              | (Raise e, s1) =>
                  if is_socket_timeout e then receive_timed_out s1 else (Raise e, s1)
              end
          end
      end.

Definition _receive_responses (v : variant) (script : list recv_event) : M unit :=
  sk <- read _socket ;;
  match sk with
  | None => ret tt
  | Some _ => receive_loop v script
  end.

Definition run (p : params) (net : network) : M unit :=
  try_finally
    (try_except
       (_connect p net ;;;
        _send_request p net ;;;
        _receive_responses (cmd p) (inbound net))
       (fun e =>
          match e with
          | socket_timeout => update (set_error (Some (JStr "Connection timed out")))
          | ConnectionRefusedError => update (set_error (Some (JStr "Connection refused")))
          | _ => update (set_error (Some (JStr ("Unexpected error: " ++ exn_str lib e))))
          end))
    disconnect.

(** ** TermuxLocationCommand *)

Definition ALLOWED_PROVIDERS : list string := ["gps"; "network"; "passive"].
Definition ALLOWED_REQUESTS : list string := ["once"; "last"; "updates"].

Definition mem (x : string) (l : list string) : bool := existsb (String.eqb x) l.

Definition _validate_parameters (provider request : string) : res unit :=
  if negb (mem provider ALLOWED_PROVIDERS) then
    Raise (ValueError ("Invalid provider: " ++ provider ++ ". Allowed: "
                       ++ String.concat ", " (set_order lib ALLOWED_PROVIDERS)))
  else if negb (mem request ALLOWED_REQUESTS) then
    Raise (ValueError ("Invalid request: " ++ request ++ ". Allowed: "
                       ++ String.concat ", " (set_order lib ALLOWED_REQUESTS)))
  else Ok tt.

(** The constructor: the attributes of the new instance, or the exception. *)
Definition TermuxLocationCommand_init (provider request : string)
    (h : string) (po : Z) (t : Z) : res (params * client) :=
  let provider' := str_lower lib provider in
  let request' := str_lower lib request in
  match _validate_parameters provider' request' with
  | Raise e => Raise e
  | Ok _ =>
      Ok ({| host := h; port := po; timeout := t;
             cmd := TermuxLocationCommand provider' request' |}, new_client)
  end.

End Client.

(** ** A library instance for evaluation

    [cpython_ascii] computes what CPython computes on ASCII text without
    [\u] escapes and on numbers that do not underflow; a str is the list of its
    UTF-8 bytes.  It is used to run the client on concrete conversations. *)

Module Cpython.

Local Open Scope nat_scope.

Definition dq : ascii := "034"%char.
Definition backslash : ascii := "092"%char.

(** JSON text is written with an apostrophe for each quotation mark. *)
Fixpoint js (s : string) : string :=
  match s with
  | EmptyString => EmptyString
  | String c r => String (if (c =? "'")%char then dq else c) (js r)
  end.

Definition bytes_of (s : string) : list byte := list_byte_of_string s.

(** *** Codecs *)

Definition cont (b : byte) : bool :=
  let n := Byte.to_nat b in (128 <=? n) && (n <=? 191).

(** Strict UTF-8, as [bytes.decode()] checks it. *)
Fixpoint utf8_valid (fuel : nat) (bs : list byte) : bool :=
  match fuel with
  | O => false
  | S fuel' =>
      match bs with
      | [] => true
      | b0 :: r0 =>
          let n0 := Byte.to_nat b0 in
          if n0 <? 128 then utf8_valid fuel' r0
          else if (194 <=? n0) && (n0 <=? 223) then
            match r0 with
            | b1 :: r1 => cont b1 && utf8_valid fuel' r1
            | _ => false
            end
          else if (224 <=? n0) && (n0 <=? 239) then
            match r0 with
            | b1 :: b2 :: r2 =>
                let n1 := Byte.to_nat b1 in
                cont b1 && cont b2
                && (if n0 =? 224 then 160 <=? n1 else true)
                && (if n0 =? 237 then n1 <=? 159 else true)
                && utf8_valid fuel' r2
            | _ => false
            end
          else if (240 <=? n0) && (n0 <=? 244) then
            match r0 with
            | b1 :: b2 :: b3 :: r3 =>
                let n1 := Byte.to_nat b1 in
                cont b1 && cont b2 && cont b3
                && (if n0 =? 240 then 144 <=? n1 else true)
                && (if n0 =? 244 then n1 <=? 143 else true)
                && utf8_valid fuel' r3
            | _ => false
            end
          else false
      end
  end.

Definition decode (bs : list byte) : option string :=
  if utf8_valid (S (length bs)) bs then Some (string_of_list_byte bs) else None.

Definition is_space (c : ascii) : bool :=
  let n := nat_of_ascii c in
  ((9 <=? n) && (n <=? 13)) || ((28 <=? n) && (n <=? 32)).

Fixpoint lstrip (s : string) : string :=
  match s with
  | String c r => if is_space c then lstrip r else s
  | EmptyString => EmptyString
  end.

Fixpoint rev_string (s acc : string) : string :=
  match s with
  | EmptyString => acc
  | String c r => rev_string r (String c acc)
  end.

Definition strip (s : string) : string :=
  rev_string (lstrip (rev_string (lstrip s) EmptyString)) EmptyString.

Definition lower_char (c : ascii) : ascii :=
  let n := nat_of_ascii c in
  if (65 <=? n) && (n <=? 90) then ascii_of_nat (n + 32) else c.

Fixpoint lower (s : string) : string :=
  match s with
  | EmptyString => EmptyString
  | String c r => String (lower_char c) (lower r)
  end.

(** *** json.loads *)

Definition is_ws (c : ascii) : bool :=
  let n := nat_of_ascii c in
  (n =? 32) || (n =? 9) || (n =? 10) || (n =? 13).

Fixpoint skip_ws (s : string) : string :=
  match s with
  | String c r => if is_ws c then skip_ws r else s
  | EmptyString => EmptyString
  end.

Definition unescape (c : ascii) : option ascii :=
  if (c =? dq)%char then Some dq
  else if (c =? backslash)%char then Some backslash
  else if (c =? "/")%char then Some "/"%char
  else if (c =? "b")%char then Some "008"%char
  else if (c =? "f")%char then Some "012"%char
  else if (c =? "n")%char then Some "010"%char
  else if (c =? "r")%char then Some "013"%char
  else if (c =? "t")%char then Some "009"%char
  else None.

(** The text of a string after its opening quote: the string and the rest. *)
Fixpoint lex_string (s acc : string) : option (string * string) :=
  match s with
  | EmptyString => None
  | String c r =>
      if (c =? dq)%char then Some (acc, r)
      else if (c =? backslash)%char then
        match r with
        | String e r' =>
            match unescape e with
            | Some c' => lex_string r' (acc ++ String c' EmptyString)
            | None => None
            end
        | EmptyString => None
        end
      else if nat_of_ascii c <? 32 then None
      else lex_string r (acc ++ String c EmptyString)
  end.

Definition is_digit (c : ascii) : bool :=
  let n := nat_of_ascii c in (48 <=? n) && (n <=? 57).

Definition is_num_char (c : ascii) : bool :=
  is_digit c || (c =? "-")%char || (c =? "+")%char || (c =? ".")%char
  || (c =? "e")%char || (c =? "E")%char.

Fixpoint span_num (s : string) : string * string :=
  match s with
  | String c r =>
      if is_num_char c then let (a, b) := span_num r in (String c a, b)
      else (EmptyString, s)
  | EmptyString => (EmptyString, EmptyString)
  end.

Fixpoint digits (s : string) : string * string :=
  match s with
  | String c r =>
      if is_digit c then let (a, b) := digits r in (String c a, b)
      else (EmptyString, s)
  | EmptyString => (EmptyString, EmptyString)
  end.

Definition nonempty (s : string) : bool :=
  match s with EmptyString => false | _ => true end.

(** The whole text is a JSON number: an optional minus sign, an integer part
    with no leading zero, an optional fraction, an optional exponent. *)
Definition number_ok (s : string) : bool :=
  let s1 := match s with String "-"%char r => r | _ => s end in
  let (int_part, s2) := digits s1 in
  let int_ok :=
    match int_part with
    | EmptyString => false
    | String "0"%char EmptyString => true
    | String "0"%char _ => false
    | _ => true
    end in
  let (frac_ok, s3) :=
    match s2 with
    | String "."%char r => let (d, r') := digits r in (nonempty d, r')
    | _ => (true, s2)
    end in
  let exp_tail (r : string) :=
    let r1 := match r with
              | String "-"%char r' => r'
              | String "+"%char r' => r'
              | _ => r
              end in
    let (d, r2) := digits r1 in nonempty d && negb (nonempty r2) in
  let exp_ok :=
    match s3 with
    | EmptyString => true
    | String "e"%char r => exp_tail r
    | String "E"%char r => exp_tail r
    | _ => false
    end in
  int_ok && frac_ok && exp_ok.

Fixpoint drop (n : nat) (s : string) : string :=
  match n, s with
  | S n', String _ r => drop n' r
  | _, _ => s
  end.

Definition parse_atom (s : string) : option (json * string) :=
  if String.prefix "true" s then Some (JBool true, drop 4 s)
  else if String.prefix "false" s then Some (JBool false, drop 5 s)
  else if String.prefix "null" s then Some (JNull, drop 4 s)
  else if String.prefix "NaN" s then Some (JNum "NaN", drop 3 s)
  else if String.prefix "Infinity" s then Some (JNum "Infinity", drop 8 s)
  else if String.prefix "-Infinity" s then Some (JNum "-Infinity", drop 9 s)
  else
    let (lexeme, rest) := span_num s in
    if number_ok lexeme then Some (JNum lexeme, rest) else None.

Fixpoint parse_value (fuel : nat) (s : string) {struct fuel} : option (json * string) :=
  match fuel with
  | O => None
  | S f =>
      match s with
      | EmptyString => None
      | String c r =>
          if (c =? "{")%char then
            match skip_ws r with
            | String "}"%char r' => Some (JObj [], r')
            | r' => parse_members f r' []
            end
          else if (c =? "[")%char then
            match skip_ws r with
            | String "]"%char r' => Some (JArr [], r')
            | r' => parse_elements f r' []
            end
          else if (c =? dq)%char then
            match lex_string r EmptyString with
            | Some (str, r') => Some (JStr str, r')
            | None => None
            end
          else parse_atom s
      end
  end
with parse_elements (fuel : nat) (s : string) (acc : list json) {struct fuel}
  : option (json * string) :=
  match fuel with
  | O => None
  | S f =>
      match parse_value f s with
      | None => None
      | Some (v, r) =>
          match skip_ws r with
          | String ","%char r' => parse_elements f (skip_ws r') (acc ++ [v])
          | String "]"%char r' => Some (JArr (acc ++ [v]), r')
          | _ => None
          end
      end
  end
with parse_members (fuel : nat) (s : string) (acc : list (string * json)) {struct fuel}
  : option (json * string) :=
  match fuel with
  | O => None
  | S f =>
      match s with
      | EmptyString => None
      | String c r =>
          if (c =? dq)%char then
            match lex_string r EmptyString with
            | None => None
            | Some (k, r1) =>
                match skip_ws r1 with
                | String ":"%char r2 =>
                    match parse_value f (skip_ws r2) with
                    | None => None
                    | Some (v, r3) =>
                        match skip_ws r3 with
                        | String ","%char r4 =>
                            parse_members f (skip_ws r4) (dict_set k v acc)
                        | String "}"%char r4 => Some (JObj (dict_set k v acc), r4)
                        | _ => None
                        end
                    end
                | _ => None
                end
            end
          else None
      end
  end.

Definition loads (s : string) : option json :=
  match parse_value (S (String.length s)) (skip_ws s) with
  | Some (v, r) =>
      match skip_ws r with
      | EmptyString => Some v
      | _ => None
      end
  | None => None
  end.

(** *** json.dumps *)

Definition hex_digit (n : nat) : ascii :=
  if n <? 10 then ascii_of_nat (48 + n) else ascii_of_nat (87 + n).

Definition escape_char (c : ascii) : string :=
  let n := nat_of_ascii c in
  if (c =? dq)%char then String backslash (String dq EmptyString)
  else if (c =? backslash)%char then String backslash (String backslash EmptyString)
  else if n =? 10 then String backslash "n"
  else if n =? 13 then String backslash "r"
  else if n =? 9 then String backslash "t"
  else if n =? 8 then String backslash "b"
  else if n =? 12 then String backslash "f"
  else if n <? 32 then
    String backslash
      ("u00" ++ String (hex_digit (n / 16)) (String (hex_digit (n mod 16)) EmptyString))
  else String c EmptyString.

Fixpoint escape (s : string) : string :=
  match s with
  | EmptyString => EmptyString
  | String c r => escape_char c ++ escape r
  end.

Definition quoted (s : string) : string :=
  String dq (escape s ++ String dq EmptyString).

Fixpoint dumps (v : json) : string :=
  match v with
  | JNull => "null"
  | JBool true => "true"
  | JBool false => "false"
  | JNum lexeme => lexeme
  | JStr s => quoted s
  | JArr items => "[" ++ String.concat ", " (map dumps items) ++ "]"
  | JObj members =>
      "{" ++ String.concat ", "
               (map (fun kv => match kv with
                               | (k, x) => (quoted k ++ ": " ++ dumps x)%string
                               end) members) ++ "}"
  end.

(** *** str() and repr() *)

Fixpoint repr (v : json) : string :=
  match v with
  | JNull => "None"
  | JBool true => "True"
  | JBool false => "False"
  | JNum lexeme => lexeme
  | JStr s => "'" ++ s ++ "'"
  | JArr items => "[" ++ String.concat ", " (map repr items) ++ "]"
  | JObj members =>
      "{" ++ String.concat ", "
               (map (fun kv => match kv with
                               | (k, x) => ("'" ++ k ++ "': " ++ repr x)%string
                               end) members) ++ "}"
  end.

(** A number literal is zero when its mantissa has no digit but 0. *)
Fixpoint mantissa_zero (s : string) : bool :=
  match s with
  | EmptyString => true
  | String c r =>
      if (c =? "e")%char || (c =? "E")%char then true
      else if is_digit c then (c =? "0")%char && mantissa_zero r
      else if (c =? "-")%char || (c =? ".")%char then mantissa_zero r
      else false
  end.

Definition str_of_exn (e : exn) : string :=
  match e with
  | socket_timeout => "timed out"
  | ConnectionRefusedError => "[Errno 111] Connection refused"
  | OSError msg => msg
  | NotImplementedError msg => msg
  | ValueError msg => msg
  | KeyError key => "'" ++ key ++ "'"
  | TypeError msg => msg
  | AttributeError msg => msg
  | UnicodeDecodeError => "'utf-8' codec can't decode bytes"
  end.

Definition cpython_ascii : pylib :=
  {| bytes_decode := decode;
     str_encode := list_byte_of_string;
     str_strip := strip;
     str_lower := lower;
     json_loads := loads;
     json_dumps := dumps;
     py_repr := repr;
     num_is_zero := mantissa_zero;
     exn_str := str_of_exn;
     set_order := fun l => l |}.

End Cpython.

(** ** Concrete conversations *)

Module Scenario.
Import Cpython.

Definition nl : string := String "010"%char EmptyString.

(** One line of JSON text and its newline, as bytes. *)
Definition line (text : string) : list byte := bytes_of (js text ++ nl).

(** A server that accepts the connection and answers with these reads. *)
Definition server (reads : list (list byte)) : network :=
  {| socket_raises := None; connect_raises := None; sendall_raises := None;
     inbound := map RecvBytes reads; close_raises := None |}.

Definition location : params :=
  {| host := "localhost"; port := 80; timeout := DEFAULT_TIMEOUT;
     cmd := TermuxLocationCommand "network" "once" |}.

(** The conversation of a fresh instance, and what [execute] then returns when
    the worker finishes within the timeout. *)
Definition converse (p : params) (net : network) : res unit * client :=
  run cpython_ascii p net new_client.

Definition outcome (p : params) (net : network) : option json * option json :=
  let s := snd (converse p net) in (_result s, _error s).

Definition denied_line : string :=
  "{'permissions':[{'permission':'ACCESS_FINE_LOCATION','granted':false}]}".
Definition fix_line : string := "{'latitude':1.0,'longitude':2.0}".

End Scenario.

(** * Properties *)

(** ** Traces *)

Definition is_recv (e : event) : bool :=
  match e with EvRecv => true | _ => false end.
Definition is_stop (e : event) : bool :=
  match e with EvStop => true | _ => false end.
Definition is_close (e : event) : bool :=
  match e with EvClose => true | _ => false end.

(** The payloads of the [sendall] calls, in order. *)
Fixpoint sends (t : list event) : list (list byte) :=
  match t with
  | [] => []
  | EvSendAll payload :: t' => payload :: sends t'
  | _ :: t' => sends t'
  end.

(** The number of [close] calls. *)
Definition closes (t : list event) : nat := length (filter is_close t).

(** The data lines handed to the data handler, in order. *)
Fixpoint data_calls (t : list event) : list json :=
  match t with
  | [] => []
  | EvHandleData d :: t' => d :: data_calls t'
  | _ :: t' => data_calls t'
  end.

(** The permission records the permission handler visited, in order. *)
Fixpoint permission_visits (t : list event) : list (json * json) :=
  match t with
  | [] => []
  | EvDebug (LogPermission name granted) :: t' => (name, granted) :: permission_visits t'
  | _ :: t' => permission_visits t'
  end.

(** No [recv] follows the first write of the stop flag. *)
Fixpoint no_recv_after_stop (t : list event) : bool :=
  match t with
  | [] => true
  | e :: t' => if is_stop e then negb (existsb is_recv t') else no_recv_after_stop t'
  end.

(** The events a handler or [disconnect] adds: no socket traffic but [close]. *)
Definition quiet (e : event) : bool :=
  match e with
  | EvDebug _ | EvHandleError _ | EvHandlePermissions _ | EvHandleData _ => true
  | _ => false
  end.

(** What [disconnect] adds after the write of the stop flag. *)
Definition close_events (sk : option sock) : list event :=
  match sk with
  | None => []
  | Some k =>
      EvClose :: match close_outcome k with
                 | Some e => [EvDebug (LogCloseError e)]
                 | None => []
                 end
  end.

Definition after_disconnect (s : client) : client :=
  {| _socket := None; _data := _data s; _result := _result s; _error := _error s;
     _event_stop := true;
     trace := trace s ++ EvStop :: close_events (_socket s) |}.

(** The attributes of an instance, the trace left out. *)
Definition attributes (s : client)
  : option sock * list byte * option json * option json * bool :=
  (_socket s, _data s, _result s, _error s, _event_stop s).

Fixpoint disconnect_times (n : nat) (s : client) : client :=
  match n with
  | O => s
  | S n' => disconnect_times n' (snd (disconnect s))
  end.

(** [m] keeps [P]. *)
Definition preserves {A} (P : client -> Prop) (m : M A) : Prop :=
  forall s, P s -> P (snd (m s)).

Ltac unfold_monad :=
  unfold bind, update, read, ret, raise, lift, try_except, try_finally in *.

Lemma disconnect_eq : forall s, disconnect s = (Ok tt, after_disconnect s).
Proof.
  intros [sk d r e st t]. unfold disconnect, after_disconnect. unfold_monad. simpl.
  destruct sk as [[[x|]]|]; simpl;
    unfold set_socket, emit, set_event_stop; simpl;
    rewrite <- ?app_assoc; reflexivity.
Qed.

Section Preservation.

Context {A B : Type} (P : client -> Prop).

Lemma preserves_ret : forall a : A, preserves P (ret a).
Proof. intros a s H. exact H. Qed.

Lemma preserves_raise : forall e, preserves P (@raise A e).
Proof. intros e s H. exact H. Qed.

Lemma preserves_lift : forall r : res A, preserves P (lift r).
Proof. intros r s H. exact H. Qed.

Lemma preserves_read : forall f : client -> A, preserves P (read f).
Proof. intros f s H. exact H. Qed.

Lemma preserves_update :
  forall f, (forall s, P s -> P (f s)) -> preserves P (update f).
Proof. intros f Hf s H. apply Hf, H. Qed.

Lemma preserves_bind :
  forall (m : M A) (k : A -> M B),
    preserves P m -> (forall a, preserves P (k a)) -> preserves P (bind m k).
Proof.
  intros m k Hm Hk s H. unfold bind. specialize (Hm s H).
  destruct (m s) as [[a|e] s']; simpl in *.
  - apply Hk, Hm.
  - exact Hm.
Qed.

Lemma preserves_try_except :
  forall (m : M A) (h : exn -> M A),
    preserves P m -> (forall e, preserves P (h e)) -> preserves P (try_except m h).
Proof.
  intros m h Hm Hh s H. unfold try_except. specialize (Hm s H).
  destruct (m s) as [[a|e] s']; simpl in *.
  - exact Hm.
  - apply Hh, Hm.
Qed.

Lemma preserves_try_finally :
  forall (m : M A) (f : M unit),
    preserves P m -> preserves P f -> preserves P (try_finally m f).
Proof.
  intros m f Hm Hf s H. unfold try_finally. specialize (Hm s H).
  destruct (m s) as [r s']; simpl in *. specialize (Hf s' Hm).
  destruct (f s') as [[u|e] s'']; simpl in *; exact Hf.
Qed.

End Preservation.

(** What every step of the receiving side keeps, given that its primitive
    writes do. *)
Section Receiving.

Variable lib : pylib.
Variable P : client -> Prop.

Hypothesis P_emit : forall e s, quiet e = true -> P s -> P (emit e s).
Hypothesis P_data : forall x s, P s -> P (set_data x s).
Hypothesis P_result : forall x s, P s -> P (set_result x s).
Hypothesis P_error : forall x s, P s -> P (set_error x s).
Hypothesis P_disconnect : forall s, P s -> P (after_disconnect s).
Hypothesis P_recv : forall s, _event_stop s = false -> P s -> P (emit EvRecv s).

Lemma keeps_disconnect : preserves P disconnect.
Proof. intros s H. rewrite disconnect_eq. apply P_disconnect, H. Qed.

Ltac keep_step :=
  first
    [ apply preserves_ret | apply preserves_raise | apply preserves_lift
    | apply preserves_read | apply keeps_disconnect
    | apply preserves_update; intros;
      first [ apply P_emit; [reflexivity|] | apply P_data | apply P_result
            | apply P_error ]; assumption
    | match goal with
      | |- preserves _ (if ?b then _ else _) => destruct b
      | |- preserves _ (match ?x with _ => _ end) => destruct x
      end
    | apply preserves_bind; [|intro] ].
Ltac keep := repeat keep_step.

Lemma keeps_handle_data : forall v data, preserves P (_handle_data v data).
Proof. intros v data. unfold _handle_data. keep. Qed.

Lemma keeps_handle_error : forall msg, preserves P (_handle_error msg).
Proof. intros msg. unfold _handle_error. keep. Qed.

Lemma keeps_permission_step : forall perm, preserves P (permission_step lib perm).
Proof. intros perm. unfold permission_step. keep. Qed.

Lemma keeps_permission_loop : forall perms, preserves P (permission_loop lib perms).
Proof.
  induction perms as [|perm rest IH]; simpl.
  - apply preserves_ret.
  - apply preserves_bind; [apply keeps_permission_step | intro; exact IH].
Qed.

Lemma keeps_handle_permissions :
  forall perms, preserves P (_handle_permissions lib perms).
Proof.
  intros perms. unfold _handle_permissions. keep. apply keeps_permission_loop.
Qed.

Lemma keeps_handle_response : forall v data, preserves P (_handle_response lib v data).
Proof.
  intros v data. unfold _handle_response.
  apply preserves_bind; [apply preserves_lift|]. intros [|].
  - apply preserves_bind; [apply preserves_lift|]. intro. apply keeps_handle_error.
  - apply preserves_bind; [apply preserves_lift|]. intros [|].
    + apply preserves_bind; [apply preserves_lift|]. intro.
      apply keeps_handle_permissions.
    + apply keeps_handle_data.
Qed.

Lemma keeps_process_line : forall v line, preserves P (_process_line lib v line).
Proof.
  intros v line. unfold _process_line.
  destruct (json_loads lib line); [apply keeps_handle_response | keep].
Qed.

Lemma keeps_feed : forall v response, preserves P (feed lib v response).
Proof.
  intros v response. induction response as [|b rest IH]; simpl.
  - apply preserves_ret.
  - apply preserves_bind; [|intro; apply preserves_bind; [|intro; exact IH]].
    + apply preserves_update. intros. apply P_data. assumption.
    + destruct (Byte.eqb b x0a); [|apply preserves_ret].
      apply preserves_bind; [apply preserves_read|]. intro d.
      destruct (bytes_decode lib d); [|apply preserves_raise].
      apply preserves_bind; [|intro; apply keeps_process_line].
      apply preserves_update. intros. apply P_data. assumption.
Qed.

Lemma keeps_receive_loop : forall v script, preserves P (receive_loop lib v script).
Proof.
  intros v script. induction script as [|ev rest IH]; intros s H; simpl.
  - destruct (_event_stop s) eqn:Hs; [exact H|].
    destruct (_socket s); [|exact H]. simpl. apply P_recv; assumption.
  - destruct (_event_stop s) eqn:Hs; [exact H|].
    destruct (_socket s); [|exact H].
    assert (H0 : P (emit EvRecv s)) by (apply P_recv; assumption).
    destruct ev as [bs|e].
    + destruct bs as [|b bs]; [exact H0|].
      pose proof (keeps_feed v (b :: bs) _ H0) as Hf.
      destruct (feed lib v (b :: bs) (emit EvRecv s)) as [[u|e] s1]; simpl in *.
      * apply IH, Hf.
      * destruct (is_socket_timeout e); simpl; [apply P_error|]; exact Hf.
    + destruct (is_socket_timeout e); simpl; [apply P_error|]; exact H0.
Qed.

Lemma keeps_receive_responses :
  forall v script, preserves P (_receive_responses lib v script).
Proof.
  intros v script. unfold _receive_responses.
  apply preserves_bind; [apply preserves_read|].
  intros [k|]; [apply keeps_receive_loop | apply preserves_ret].
Qed.

Hypothesis P_send : forall payload s, P s -> P (emit (EvSendAll payload) s).

Lemma keeps_send_request : forall p net, preserves P (_send_request lib p net).
Proof.
  intros p net. unfold _send_request.
  apply preserves_bind; [apply preserves_read|]. intros [k|]; [|apply preserves_ret].
  apply preserves_bind; [apply preserves_lift|]. intro text.
  apply preserves_bind; [apply preserves_update; intros; apply P_emit; auto|]. intro.
  apply preserves_bind; [apply preserves_lift|]. intro text'.
  apply preserves_bind; [apply preserves_update; intros; apply P_send; auto|]. intro.
  destruct (sendall_raises net); [apply preserves_raise | apply preserves_ret].
Qed.

(** A conversation ends in [Q] when connecting establishes it. *)
Lemma run_establishes :
  forall (Q : client -> Prop) p net,
    (forall s, Q s -> P (snd (_connect p net s))) ->
    forall s, Q s -> P (snd (run lib p net s)).
Proof.
  intros Q p net Hc s H. unfold run, try_finally, try_except, bind.
  specialize (Hc s H).
  destruct (_connect p net s) as [[u|e] s1]; simpl in Hc.
  - pose proof (keeps_send_request p net s1 Hc) as Hs.
    destruct (_send_request lib p net s1) as [[u'|e] s2]; simpl in Hs.
    + pose proof (keeps_receive_responses (cmd p) (inbound net) s2 Hs) as Hr.
      destruct (_receive_responses lib (cmd p) (inbound net) s2) as [[u''|e] s3];
        simpl in Hr.
      * rewrite disconnect_eq. simpl. apply P_disconnect, Hr.
      * destruct e; unfold update; rewrite disconnect_eq; simpl;
          apply P_disconnect, P_error, Hr.
    + destruct e; unfold update; rewrite disconnect_eq; simpl;
        apply P_disconnect, P_error, Hs.
  - destruct e; unfold update; rewrite disconnect_eq; simpl;
      apply P_disconnect, P_error, Hc.
Qed.

End Receiving.

(** [run] catches every exception and ends in [disconnect]. *)
Lemma run_eq :
  forall lib p net s,
    exists s', run lib p net s = (Ok tt, after_disconnect s').
Proof.
  intros lib p net s. unfold run, try_finally, try_except.
  destruct (bind _ _ s) as [[u|e] s1].
  - rewrite disconnect_eq. exists s1. destruct u. reflexivity.
  - destruct e; unfold update; rewrite disconnect_eq; eexists; reflexivity.
Qed.

(** ** Facts about traces *)

Lemma sends_app : forall a b, sends (a ++ b) = sends a ++ sends b.
Proof.
  induction a as [|e a IH]; intros b; simpl; [reflexivity|].
  destruct e; simpl; rewrite ?IH; reflexivity.
Qed.

Lemma closes_app : forall a b, closes (a ++ b) = closes a + closes b.
Proof.
  intros a b. unfold closes. rewrite filter_app, length_app. reflexivity.
Qed.

Lemma closes_close_events :
  forall sk, closes (close_events sk) = match sk with Some _ => 1 | None => 0 end.
Proof. intros [[[e|]]|]; reflexivity. Qed.

Lemma no_recv_after_stop_app :
  forall a b,
    no_recv_after_stop (a ++ b) =
      if existsb is_stop a
      then no_recv_after_stop a && negb (existsb is_recv b)
      else no_recv_after_stop b.
Proof.
  induction a as [|e a IH]; intros b; simpl; [reflexivity|].
  destruct (is_stop e); simpl.
  - rewrite existsb_app, negb_orb. reflexivity.
  - apply IH.
Qed.

Lemma close_events_no_recv : forall sk, existsb is_recv (close_events sk) = false.
Proof. intros [[[e|]]|]; reflexivity. Qed.

Lemma permission_visits_app :
  forall a b, permission_visits (a ++ b) = permission_visits a ++ permission_visits b.
Proof.
  induction a as [|e a IH]; intros b; simpl; [reflexivity|].
  destruct e as [| | | | | |d| | |]; try apply IH.
  destruct d; simpl; rewrite ?IH; reflexivity.
Qed.

Lemma permission_visits_close_events :
  forall sk, permission_visits (close_events sk) = [].
Proof. intros [[[e|]]|]; reflexivity. Qed.

Lemma mem_In : forall x l, mem x l = true <-> In x l.
Proof.
  intros x l. unfold mem. rewrite existsb_exists. split.
  - intros [y [Hy He]]. apply String.eqb_eq in He. subst. exact Hy.
  - intros H. exists x. split; [exact H | apply String.eqb_refl].
Qed.

(** The sockets an instance still has to close, and those it closed. *)
Definition budget (s : client) : nat :=
  closes (trace s) + match _socket s with Some _ => 1 | None => 0 end.

Lemma budget_emit :
  forall e s, is_close e = false -> budget (emit e s) = budget s.
Proof.
  intros e s H. unfold budget. simpl. rewrite closes_app.
  unfold closes at 2. simpl. rewrite H. simpl. lia.
Qed.

Lemma budget_after_disconnect : forall s, budget (after_disconnect s) = budget s.
Proof.
  intros s. unfold budget. simpl. rewrite closes_app.
  change (EvStop :: close_events (_socket s)) with ([EvStop] ++ close_events (_socket s)).
  rewrite closes_app, closes_close_events. simpl. lia.
Qed.

Lemma disconnect_times_succ :
  forall n s,
    attributes (disconnect_times (S n) s) = (None, _data s, _result s, _error s, true)
    /\ closes (trace (disconnect_times (S n) s)) = budget s.
Proof.
  induction n as [|n IH]; intros s.
  - simpl. rewrite disconnect_eq. simpl. split; [reflexivity|].
    rewrite <- (budget_after_disconnect s). unfold budget. simpl. lia.
  - change (disconnect_times (S (S n)) s)
      with (disconnect_times (S n) (snd (disconnect s))).
    rewrite disconnect_eq. simpl snd.
    destruct (IH (after_disconnect s)) as [Ha Hc]. split.
    + rewrite Ha. reflexivity.
    + rewrite Hc. apply budget_after_disconnect.
Qed.

Lemma closes_disconnect_times :
  forall n s, closes (trace (disconnect_times n s)) <= budget s.
Proof.
  intros [|n] s.
  - simpl. unfold budget. lia.
  - destruct (disconnect_times_succ n s) as [_ H]. rewrite H. lia.
Qed.

Lemma idle_disconnect_times :
  forall k s,
    budget s = 0 /\ _socket s = None ->
    budget (disconnect_times k s) = 0 /\ _socket (disconnect_times k s) = None.
Proof.
  induction k as [|k IH]; intros s H; [exact H|].
  simpl. rewrite disconnect_eq. simpl snd. apply IH.
  rewrite budget_after_disconnect. split; [apply H | reflexivity].
Qed.

Lemma fresh_disconnect_times :
  forall k, budget (disconnect_times k new_client) = 0
            /\ _socket (disconnect_times k new_client) = None.
Proof. intros k. apply idle_disconnect_times. split; reflexivity. Qed.

Lemma connect_budget :
  forall p net s,
    budget s = 0 /\ _socket s = None -> budget (snd (_connect p net s)) <= 1.
Proof.
  intros p net s [Hb Hs]. unfold budget in *. rewrite Hs in Hb.
  unfold _connect. unfold_monad. simpl.
  destruct (socket_raises net); simpl.
  - rewrite closes_app, Hs. unfold closes at 2. simpl. lia.
  - destruct (timeout p <? 0)%Z; simpl.
    + rewrite !closes_app. unfold closes at 2 3. simpl. lia.
    + destruct (connect_raises net); simpl;
        rewrite !closes_app; unfold closes at 2 3 4; simpl; lia.
Qed.

Section Claims.

Variable lib : pylib.

Lemma run_budget :
  forall p net k,
    budget (snd (run lib p net (disconnect_times k new_client))) <= 1.
Proof.
  intros p net k.
  apply (run_establishes lib (fun s => budget s <= 1))
    with (Q := fun s => budget s = 0 /\ _socket s = None).
  - intros e s He H. rewrite budget_emit; [exact H|]. destruct e; try discriminate; reflexivity.
  - intros x s H. exact H.
  - intros x s H. exact H.
  - intros x s H. exact H.
  - intros s H. rewrite budget_after_disconnect. exact H.
  - intros s _ H. rewrite budget_emit; [exact H | reflexivity].
  - intros payload s H. rewrite budget_emit; [exact H | reflexivity].
  - intros s H. apply connect_budget, H.
  - apply fresh_disconnect_times.
Qed.

(** Calls of [disconnect] that run one after another.  [disconnect] never
    raises, whatever [close] does; it writes the stop flag first and closes
    the socket after; a second call changes no attribute; any number of
    calls close at most once, and after the first none closes; calls before
    and after a whole conversation of a fresh instance, the worker's own
    final [disconnect] included, leave at most one [close], and the
    conversation itself never raises. *)
Lemma disconnect_one_after_another :
  forall (s : client) (n : nat) (p : params) (net : network) (k m : nat),
    fst (disconnect s) = Ok tt
    /\ trace (snd (disconnect s)) = trace s ++ EvStop :: close_events (_socket s)
    /\ attributes (snd (disconnect s)) = (None, _data s, _result s, _error s, true)
    /\ attributes (snd (disconnect (snd (disconnect s)))) = attributes (snd (disconnect s))
    /\ attributes (disconnect_times (S n) s) = attributes (snd (disconnect s))
    /\ closes (trace (disconnect_times n s)) <= closes (trace s) + 1
    /\ closes (trace (disconnect_times n (snd (disconnect s))))
       = closes (trace (snd (disconnect s)))
    /\ fst (run lib p net (disconnect_times k new_client)) = Ok tt
    /\ closes (trace (disconnect_times m
                        (snd (run lib p net (disconnect_times k new_client))))) <= 1.
Proof.
  intros s n p net k m. rewrite !disconnect_eq. simpl fst. simpl snd.
  repeat split.
  - apply disconnect_times_succ.
  - pose proof (closes_disconnect_times n s) as H. unfold budget in H.
    destruct (_socket s); lia.
  - destruct n as [|n]; [reflexivity|].
    destruct (disconnect_times_succ n (after_disconnect s)) as [_ H].
    rewrite H. unfold budget. simpl. lia.
  - destruct (run_eq lib p net (disconnect_times k new_client)) as [s' H].
    rewrite H. reflexivity.
  - etransitivity; [apply closes_disconnect_times | apply run_budget].
Qed.

(** C4.  Constructing a location command succeeds exactly when the lowercased
    provider and the lowercased request are in their allow-lists; the new
    instance then holds the lowercased values, no socket and an empty trace;
    otherwise the constructor raises ValueError and no instance exists. *)
Theorem location_construction_validates :
  forall (provider request h : string) (po t : Z),
    let r := TermuxLocationCommand_init lib provider request h po t in
    ((exists pc, r = Ok pc) <->
       In (str_lower lib provider) ALLOWED_PROVIDERS
       /\ In (str_lower lib request) ALLOWED_REQUESTS)
    /\ (forall pc, r = Ok pc ->
          pc = ({| host := h; port := po; timeout := t;
                   cmd := TermuxLocationCommand (str_lower lib provider)
                                                (str_lower lib request) |},
                new_client)
          /\ _socket (snd pc) = None /\ trace (snd pc) = [])
    /\ (forall e, r = Raise e -> exists msg, e = ValueError msg).
Proof.
  intros provider request h po t. cbv zeta.
  unfold TermuxLocationCommand_init, _validate_parameters.
  rewrite <- !mem_In.
  destruct (mem (str_lower lib provider) ALLOWED_PROVIDERS);
    destruct (mem (str_lower lib request) ALLOWED_REQUESTS); simpl;
    (split; [split|split]);
    try (intros [pc H]; discriminate H);
    try (intros [H1 H2]; discriminate);
    try (intros pc H; inversion H; subst; repeat split; reflexivity);
    try (intros pc H; discriminate H);
    try (intros e H; inversion H; eexists; reflexivity);
    try (intros e H; discriminate H).
  - intros _. split; reflexivity.
  - intros _. eexists. reflexivity.
Qed.

(** Bytes without a newline only grow the buffer. *)
Lemma feed_no_newline :
  forall v raw s,
    forallb (fun b => negb (Byte.eqb b x0a)) raw = true ->
    feed lib v raw s = (Ok tt, set_data (_data s ++ raw) s).
Proof.
  intros v raw. induction raw as [|b raw IH]; intros s H; simpl in *.
  - rewrite app_nil_r. destruct s; reflexivity.
  - apply andb_true_iff in H. destruct H as [Hb Hr].
    apply negb_true_iff in Hb. unfold bind at 1, update at 1. unfold bind at 1.
    rewrite Hb. unfold ret at 1. rewrite IH by exact Hr.
    unfold set_data. simpl. rewrite <- app_assoc. reflexivity.
Qed.

Lemma bind_assoc :
  forall {A B C} (m : M A) (k : A -> M B) (h : B -> M C) s,
    bind (bind m k) h s = bind m (fun x => bind (k x) h) s.
Proof.
  intros A B C m k h s. unfold bind. destruct (m s) as [[a|e] s1]; reflexivity.
Qed.

Lemma bind_ext :
  forall {A B} (m : M A) (k k' : A -> M B) s,
    (forall x s', k x s' = k' x s') -> bind m k s = bind m k' s.
Proof.
  intros A B m k k' s H. unfold bind. destruct (m s) as [[a|e] s1]; [apply H | reflexivity].
Qed.

(** Feeding a read is feeding its pieces in order. *)
Lemma feed_app :
  forall v a b s,
    feed lib v (a ++ b) s = bind (feed lib v a) (fun _ => feed lib v b) s.
Proof.
  intros v a. induction a as [|x a IH]; intros b s; [reflexivity|].
  cbn [feed app]. rewrite !bind_assoc.
  apply bind_ext. intros _ s1. rewrite bind_assoc.
  apply bind_ext. intros _ s2. apply IH.
Qed.

(** One turn of the receive loop on a read that holds bytes. *)
Lemma receive_loop_read :
  forall v response script s k,
    _event_stop s = false ->
    _socket s = Some k ->
    response <> [] ->
    receive_loop lib v (RecvBytes response :: script) s =
      match feed lib v response (emit EvRecv s) with
      | (Ok _, s1) => receive_loop lib v script s1
      | (Raise e, s1) =>
          if is_socket_timeout e then receive_timed_out s1 else (Raise e, s1)
      end.
Proof.
  intros v response script s k Hstop Hsock Hne. cbn [receive_loop].
  rewrite Hstop, Hsock. destruct response; [contradiction | reflexivity].
Qed.


(** The two fields the permission handler reads of a record, when both are
    there. *)
Definition perm_fields (perm : json) : option (json * json) :=
  match py_getitem perm "permission", py_getitem perm "granted" with
  | Ok name, Ok granted => Some (name, granted)
  | _, _ => None
  end.

Definition denied (field : json * json) : bool := negb (truthy lib (snd field)).

Definition denial (name : json) : option json :=
  Some (JStr ("Permission denied: " ++ py_format lib name)).

Lemma permission_step_eq :
  forall perm name granted s,
    perm_fields perm = Some (name, granted) ->
    permission_step lib perm s =
      (Ok tt,
       let s1 := emit (EvDebug (LogPermission name granted)) s in
       if denied (name, granted) then after_disconnect (set_error (denial name) s1)
       else s1).
Proof.
  intros perm name granted s H. unfold perm_fields in H.
  unfold permission_step, denied. unfold_monad.
  destruct (py_getitem perm "permission") as [n|e]; [|discriminate H].
  destruct (py_getitem perm "granted") as [g|e]; [|discriminate H].
  inversion H; subst. cbn -[disconnect].
  destruct (truthy lib granted); cbn -[disconnect]; [reflexivity|].
  rewrite disconnect_eq. reflexivity.
Qed.

Lemma permission_loop_spec :
  forall perms fields s,
    map perm_fields perms = map Some fields ->
    let r := permission_loop lib perms s in
    fst r = Ok tt
    /\ permission_visits (trace (snd r)) = permission_visits (trace s) ++ fields
    /\ _error (snd r) = match rev (filter denied fields) with
                        | [] => _error s
                        | (name, _) :: _ => denial name
                        end
    /\ _event_stop (snd r) = (existsb denied fields || _event_stop s)
    /\ _socket (snd r) = (if existsb denied fields then None else _socket s)
    /\ _result (snd r) = _result s.
Proof.
  induction perms as [|perm rest IH]; intros fields s H; cbv zeta.
  - destruct fields; [|discriminate H]. cbn. rewrite app_nil_r. repeat split.
  - destruct fields as [|[name granted] frest]; [discriminate H|].
    cbn [map] in H. inversion H as [[Hp Hr]].
    cbn [permission_loop]. unfold bind.
    rewrite (permission_step_eq perm name granted s Hp). cbv zeta.
    specialize (IH frest). cbv zeta in IH.
    cbn [filter existsb]. destruct (denied (name, granted)) eqn:Hd.
    + destruct (IH (after_disconnect
                      (set_error (denial name)
                         (emit (EvDebug (LogPermission name granted)) s))) Hr)
        as (H1 & H2 & H3 & H4 & H5 & H6).
      repeat split.
      * exact H1.
      * rewrite H2. cbn. rewrite !permission_visits_app. cbn.
        rewrite permission_visits_close_events, <- !app_assoc. reflexivity.
      * rewrite H3. cbn [rev]. destruct (rev (filter denied frest)) as [|[n g] l];
          reflexivity.
      * rewrite H4. cbn. apply orb_true_r.
      * rewrite H5. cbn. destruct (existsb denied frest); reflexivity.
      * rewrite H6. reflexivity.
    + destruct (IH (emit (EvDebug (LogPermission name granted)) s) Hr)
        as (H1 & H2 & H3 & H4 & H5 & H6).
      repeat split.
      * exact H1.
      * rewrite H2. cbn. rewrite permission_visits_app, <- app_assoc. reflexivity.
      * rewrite H3. reflexivity.
      * rewrite H4. reflexivity.
      * rewrite H5. reflexivity.
      * rewrite H6. reflexivity.
Qed.

(** C10.  On a list of records that each have both fields, the permission
    handler returns normally after visiting every record in order; the error
    slot then holds the permission-denied message of the last record whose
    granted value is false (it is unchanged when there is none), and one
    denial is enough for the stop flag to be set and the socket closed. *)
Theorem permission_handler_last_denial_wins :
  forall (perms : list json) (fields : list (json * json)) (s : client),
    map perm_fields perms = map Some fields ->
    let r := _handle_permissions lib (JArr perms) s in
    fst r = Ok tt
    /\ permission_visits (trace (snd r)) = permission_visits (trace s) ++ fields
    /\ _error (snd r) = match rev (filter denied fields) with
                        | [] => _error s
                        | (name, _) :: _ =>
                            Some (JStr ("Permission denied: " ++ py_format lib name))
                        end
    /\ _event_stop (snd r) = (existsb denied fields || _event_stop s)
    /\ _socket (snd r) = (if existsb denied fields then None else _socket s).
Proof.
  intros perms fields s H. cbv zeta.
  unfold _handle_permissions. unfold_monad. cbn.
  destruct (permission_loop_spec perms fields
              (emit (EvHandlePermissions (JArr perms)) s) H)
    as (H1 & H2 & H3 & H4 & H5 & _).
  repeat split.
  - exact H1.
  - rewrite H2. cbn. rewrite permission_visits_app, app_nil_r. reflexivity.
  - exact H3.
  - exact H4.
  - exact H5.
Qed.

(** No read after the stop flag was written, and the flag is set once its
    write is in the trace. *)
Definition torn_down_for_good (s : client) : Prop :=
  no_recv_after_stop (trace s) = true
  /\ (existsb is_stop (trace s) = true -> _event_stop s = true).

Lemma torn_down_emit :
  forall e s,
    is_recv e = false -> is_stop e = false ->
    torn_down_for_good s -> torn_down_for_good (emit e s).
Proof.
  intros e s Hr Hs [H1 H2]. unfold torn_down_for_good. cbn [trace emit _event_stop].
  rewrite no_recv_after_stop_app, existsb_app. cbn. rewrite Hr, Hs, H1.
  repeat rewrite orb_false_r.
  split; [destruct (existsb is_stop (trace s)); reflexivity | exact H2].
Qed.

Lemma torn_down_after_disconnect :
  forall s, torn_down_for_good s -> torn_down_for_good (after_disconnect s).
Proof.
  intros s [H1 H2]. unfold torn_down_for_good. cbn [trace after_disconnect _event_stop].
  split; [|reflexivity].
  rewrite no_recv_after_stop_app. cbn. rewrite close_events_no_recv, H1.
  destruct (existsb is_stop (trace s)); reflexivity.
Qed.

Lemma torn_down_recv :
  forall s,
    _event_stop s = false ->
    torn_down_for_good s -> torn_down_for_good (emit EvRecv s).
Proof.
  intros s Hs [H1 H2]. unfold torn_down_for_good. cbn [trace emit _event_stop].
  rewrite no_recv_after_stop_app, existsb_app. cbn.
  destruct (existsb is_stop (trace s)).
  - rewrite H2 in Hs by reflexivity. discriminate Hs.
  - split; [reflexivity | discriminate].
Qed.

Lemma torn_down_connect :
  forall p net s,
    torn_down_for_good s -> torn_down_for_good (snd (_connect p net s)).
Proof.
  intros p net s H. unfold _connect. unfold_monad. cbn.
  assert (Hsock : forall x s0, torn_down_for_good s0 -> torn_down_for_good (set_socket x s0))
    by (intros x s0 H0; exact H0).
  destruct (socket_raises net); cbn;
    [apply torn_down_emit; auto|].
  destruct (timeout p <? 0)%Z; cbn;
    [apply Hsock; repeat (apply torn_down_emit; auto)|].
  destruct (connect_raises net); cbn;
    apply torn_down_emit; auto; apply Hsock; repeat (apply torn_down_emit; auto).
Qed.

Lemma run_torn_down_for_good :
  forall p net, torn_down_for_good (snd (run lib p net new_client)).
Proof.
  intros p net.
  apply (run_establishes lib torn_down_for_good) with (Q := torn_down_for_good).
  - intros e s He H. apply torn_down_emit; [| |exact H]; destruct e; try discriminate; reflexivity.
  - intros x s H. exact H.
  - intros x s H. exact H.
  - intros x s H. exact H.
  - apply torn_down_after_disconnect.
  - apply torn_down_recv.
  - intros payload s H. apply torn_down_emit; auto.
  - intros s H. apply torn_down_connect, H.
  - split; [reflexivity | discriminate].
Qed.

Lemma stop_flag_stays_set :
  forall v response s,
    _event_stop s = true -> _event_stop (snd (feed lib v response s)) = true.
Proof.
  intros v response.
  apply (keeps_feed lib (fun s => _event_stop s = true)); auto.
Qed.

Lemma receive_loop_stopped :
  forall v script s, _event_stop s = true -> receive_loop lib v script s = (Ok tt, s).
Proof. intros v [|ev rest] s H; cbn; rewrite H; reflexivity. Qed.

Lemma handle_error_eq :
  forall msg s,
    _handle_error msg s =
      (Ok tt, after_disconnect
                (emit (EvDebug (LogApiError msg))
                   (set_error (Some msg) (emit (EvHandleError msg) s)))).
Proof.
  intros msg s. unfold _handle_error. unfold_monad. rewrite disconnect_eq. reflexivity.
Qed.

(** C1, as the code has it.  The remote-error handler and a denied permission
    record set the error slot, write the stop flag and close the socket; the
    flag then stays set through the rest of the read, the receive loop reads
    nothing more, and in the trace of a whole conversation no [recv] follows
    the first write of the stop flag, so no line of a later read reaches a
    handler.  A line that is not JSON sets the error slot and tears nothing
    down. *)
Theorem error_teardown_stops_reading :
  forall (p : params) (net : network) (v : variant) (msg perm name granted : json)
         (line : string) (response : list byte) (script : list recv_event)
         (s : client),
    (let r := _handle_error msg s in
     fst r = Ok tt /\ _error (snd r) = Some msg
     /\ _event_stop (snd r) = true /\ _socket (snd r) = None)
    /\ (perm_fields perm = Some (name, granted) ->
        truthy lib granted = false ->
        let r := permission_step lib perm s in
        fst r = Ok tt
        /\ _error (snd r) = Some (JStr ("Permission denied: " ++ py_format lib name))
        /\ _event_stop (snd r) = true /\ _socket (snd r) = None)
    /\ (_event_stop s = true ->
        _event_stop (snd (feed lib v response s)) = true
        /\ receive_loop lib v script s = (Ok tt, s))
    /\ (let s' := snd (run lib p net new_client) in
        no_recv_after_stop (trace s') = true
        /\ _event_stop s' = true /\ _socket s' = None)
    /\ (json_loads lib line = None ->
        let r := _process_line lib v line s in
        fst r = Ok tt
        /\ _error (snd r) = Some (JStr ("Invalid JSON: " ++ line))
        /\ _event_stop (snd r) = _event_stop s /\ _socket (snd r) = _socket s).
Proof.
  intros p net v msg perm name granted line response script s.
  split; [|split; [|split; [|split]]].
  - cbv zeta. rewrite handle_error_eq. repeat split.
  - intros Hp Hg. cbv zeta. rewrite (permission_step_eq perm name granted s Hp).
    unfold denied. cbn [snd]. rewrite Hg. repeat split.
  - intros Hs. split; [apply stop_flag_stays_set, Hs | apply receive_loop_stopped, Hs].
  - cbv zeta. split; [apply run_torn_down_for_good|].
    destruct (run_eq lib p net new_client) as [s' H]. rewrite H. split; reflexivity.
  - intros Hj. cbv zeta. unfold _process_line. rewrite Hj. repeat split.
Qed.

Lemma sends_close_events : forall sk, sends (close_events sk) = [].
Proof. intros [[[e|]]|]; reflexivity. Qed.

Lemma sends_after_disconnect :
  forall s, sends (trace (after_disconnect s)) = sends (trace s).
Proof.
  intros s. cbn. rewrite sends_app. cbn. rewrite sends_close_events. apply app_nil_r.
Qed.

(** Receiving sends nothing. *)
Lemma receive_sends_nothing :
  forall v script s,
    sends (trace (snd (_receive_responses lib v script s))) = sends (trace s).
Proof.
  intros v script s.
  apply (keeps_receive_responses lib (fun s' => sends (trace s') = sends (trace s)));
    try (intros; assumption); try reflexivity.
  - intros e s' He H. cbn. rewrite sends_app, H. destruct e; try discriminate He; apply app_nil_r.
  - intros s' H. rewrite sends_after_disconnect. exact H.
  - intros s' _ H. cbn. rewrite sends_app, H. apply app_nil_r.
Qed.

(** What [run] does after its [try] body: the handlers and the final
    [disconnect] send nothing. *)
Lemma run_sends :
  forall p net s,
    sends (trace (snd (run lib p net s))) =
    sends (trace (snd (bind (_connect p net)
                         (fun _ => bind (_send_request lib p net)
                            (fun _ => _receive_responses lib (cmd p) (inbound net)))
                         s))).
Proof.
  intros p net s. unfold run, try_finally, try_except.
  destruct (bind _ _ s) as [[u|e] s1]; cbn [snd].
  - rewrite disconnect_eq. apply sends_after_disconnect.
  - destruct e; unfold update; rewrite disconnect_eq; cbn [snd];
      rewrite sends_after_disconnect; reflexivity.
Qed.

(** The trace of [s] starts with [pre]. *)
Definition extends (pre : list event) (s : client) : Prop :=
  exists rest, trace s = pre ++ rest.

Lemma extends_emit : forall pre e s, extends pre s -> extends pre (emit e s).
Proof.
  intros pre e s [rest H]. exists (rest ++ [e]). cbn. rewrite H. apply eq_sym, app_assoc.
Qed.

Lemma extends_after_disconnect :
  forall pre s, extends pre s -> extends pre (after_disconnect s).
Proof.
  intros pre s [rest H]. exists (rest ++ EvStop :: close_events (_socket s)).
  cbn. rewrite H. apply eq_sym, app_assoc.
Qed.

Lemma receive_extends :
  forall pre v script s,
    extends pre s -> extends pre (snd (_receive_responses lib v script s)).
Proof.
  intros pre v script.
  apply (keeps_receive_responses lib (extends pre));
    try (intros; assumption).
  - intros e s _ H. apply extends_emit, H.
  - apply extends_after_disconnect.
  - intros s _ H. apply extends_emit, H.
Qed.

Lemma run_extends :
  forall pre p net s,
    extends pre (snd (bind (_connect p net)
                        (fun _ => bind (_send_request lib p net)
                           (fun _ => _receive_responses lib (cmd p) (inbound net)))
                        s)) ->
    extends pre (snd (run lib p net s)).
Proof.
  intros pre p net s. unfold run, try_finally, try_except.
  destruct (bind _ _ s) as [[u|e] s1]; cbn [snd]; intros H.
  - rewrite disconnect_eq. apply extends_after_disconnect, H.
  - destruct e; unfold update; rewrite disconnect_eq; cbn [snd];
      apply extends_after_disconnect; exact H.
Qed.

(** C8.  The [sendall] calls of one conversation of a fresh instance: exactly
    one when the socket is created and connected and the request can be
    built, and its payload is the encoded JSON text of [to_dict] followed by
    one newline byte; none otherwise.  The call comes right after [connect]:
    the trace starts with the creation of the socket, [connect], and the
    [sendall].  [to_dict] of each command is the object with the one key
    extras, whose value has api_method first and then the keys of the
    command: provider and request for the location command. *)
Theorem outbound_traffic_is_one_request :
  forall (p : params) (net : network) (provider request notification_id : string)
         (remove_keys d : json),
    sends (trace (snd (run lib p net new_client))) =
      match socket_raises net, (timeout p <? 0)%Z, connect_raises net,
            to_dict (cmd p) with
      | None, false, None, Ok d' => [str_encode lib (json_dumps lib d') ++ [x0a]]
      | _, _, _, _ => []
      end
    /\ (socket_raises net = None -> (timeout p <? 0)%Z = false ->
        connect_raises net = None -> to_dict (cmd p) = Ok d ->
        exists rest,
          trace (snd (run lib p net new_client)) =
            [EvDebug (LogConnecting (host p) (port p)); EvSocket;
             EvConnect (host p) (port p);
             EvDebug (LogSending (json_dumps lib d));
             EvSendAll (str_encode lib (json_dumps lib d) ++ [x0a])] ++ rest)
    /\ to_dict (TermuxLocationCommand provider request)
       = Ok (JObj [("extras", JObj [("api_method", JStr "Location");
                                    ("provider", JStr provider);
                                    ("request", JStr request)])])
    /\ to_dict (TermuxNotificationListCommand remove_keys)
       = Ok (JObj [("extras", JObj [("api_method", JStr "NotificationList");
                                    ("keys", remove_keys)])])
    /\ to_dict (TermuxNotificationRemoveCommand notification_id)
       = Ok (JObj [("extras", JObj [("api_method", JStr "NotificationRemove");
                                    ("id", JStr notification_id)])])
    /\ (exists msg, to_dict TermuxRpcClient = Raise (NotImplementedError msg)).
Proof.
  intros p net provider request notification_id remove_keys d.
  split; [|split; [|repeat split; eexists; reflexivity]].
  - rewrite run_sends. unfold bind at 1. unfold _connect. unfold_monad.
    cbn -[_receive_responses].
    destruct (socket_raises net); [reflexivity|]. cbn -[_receive_responses].
    destruct (timeout p <? 0)%Z; [reflexivity|]. cbn -[_receive_responses].
    destruct (connect_raises net); [destruct (to_dict (cmd p)); reflexivity|].
    cbn -[_receive_responses].
    unfold _send_request, to_json. unfold_monad. cbn -[_receive_responses].
    destruct (to_dict (cmd p)) as [d'|e]; [|reflexivity]. cbn -[_receive_responses].
    destruct (sendall_raises net); [reflexivity|]. cbn -[_receive_responses].
    rewrite receive_sends_nothing. reflexivity.
  - intros Hs Ht Hc Hd. apply run_extends.
    unfold bind at 1. unfold _connect. unfold_monad. rewrite Hs, Ht, Hc.
    cbn -[_receive_responses].
    unfold _send_request, to_json. unfold_monad. rewrite Hd.
    cbn -[_receive_responses].
    destruct (sendall_raises net); cbn -[_receive_responses].
    + exists []. reflexivity.
    + apply receive_extends. exists []. reflexivity.
Qed.

(** The data handler of the location command, line by line: a line with the
    key latitude becomes the result and disconnects, any other line changes
    no attribute. *)
Lemma location_data_handler :
  forall provider request data s b,
    py_in "latitude" data = Ok b ->
    _handle_data (TermuxLocationCommand provider request) data s =
      (Ok tt,
       if b then after_disconnect (set_result (Some data) (emit (EvHandleData data) s))
       else emit (EvHandleData data) s).
Proof.
  intros provider request data s b H. unfold _handle_data. unfold_monad.
  rewrite H. destruct b; [rewrite disconnect_eq|]; reflexivity.
Qed.

End Claims.

(** * Evaluations *)

Module Runs.
Import Cpython Scenario.

Definition location_fix : json := JObj [("latitude", JNum "1.0"); ("longitude", JNum "2.0")].
Definition second_fix_line : string := "{'latitude':3.0,'longitude':4.0}".
Definition second_fix : json :=
  JObj [("latitude", JNum "3.0"); ("longitude", JNum "4.0")].
Definition error_line : string := "{'error':'denied'}".

(** An instance in the middle of its conversation: connected, nothing read. *)
Definition connected : client :=
  {| _socket := Some {| close_outcome := None |}; _data := []; _result := None;
     _error := None; _event_stop := false; trace := [] |}.

(** An instance after [disconnect]. *)
Definition stopped : client := after_disconnect connected.

(** The events after which the error slot holds a new error: the entry of the
    error handler, the debug line of a record that is not granted, the debug
    line of a JSON failure. *)
Definition sets_error (lib : pylib) (e : event) : bool :=
  match e with
  | EvHandleError _ => true
  | EvDebug (LogPermission _ granted) => negb (truthy lib granted)
  | EvDebug (LogJsonFailed _) => true
  | _ => false
  end.

(** The entry of a handler. *)
Definition dispatches (e : event) : bool :=
  match e with
  | EvHandleError _ | EvHandlePermissions _ | EvHandleData _ => true
  | _ => false
  end.

(** C1 as it is written: in every conversation, nothing is dispatched after
    an event that sets the error slot. *)
Definition stops_at_first_error : Prop :=
  forall (lib : pylib) (p : params) (net : network) (before after : list event)
         (e : event),
    trace (snd (run lib p net new_client)) = before ++ e :: after ->
    sets_error lib e = true ->
    existsb dispatches after = false.

Definition garbage_then_fix : network := server [line "garbage"; line fix_line].

(** The place of the JSON failure in the trace of that conversation. *)
Definition failure_at : nat := 6.

End Runs.

Import Cpython Scenario Runs.

(** C1, counterexample.  A server sends a line that is not JSON and, in a
    second read, a location: the error slot is set by the first line, the
    connection stays up, and the second line reaches the data handler. *)
Lemma invalid_json_error_does_not_stop_dispatch : ~ stops_at_first_error.
Proof.
  intro H.
  pose (t := trace (snd (run cpython_ascii location garbage_then_fix new_client))).
  specialize (H cpython_ascii location garbage_then_fix
                (firstn failure_at t) (skipn (S failure_at) t)
                (EvDebug (LogJsonFailed "garbage"))).
  assert (Ht : t = firstn failure_at t
                   ++ EvDebug (LogJsonFailed "garbage") :: skipn (S failure_at) t)
    by (vm_compute; reflexivity).
  specialize (H Ht eq_refl). vm_compute in H. discriminate H.
Qed.

(** C1, witness: a denied record, an instance whose stop flag is set, and a
    line that is not JSON. *)
Lemma error_teardown_stops_reading_witness :
  _event_stop
    (snd (permission_step cpython_ascii
            (JObj [("permission", JStr "ACCESS_FINE_LOCATION");
                   ("granted", JBool false)]) connected)) = true
  /\ receive_loop cpython_ascii (cmd location) [RecvBytes (line fix_line)] stopped
     = (Ok tt, stopped)
  /\ _socket (snd (_process_line cpython_ascii (cmd location) "garbage" connected))
     = _socket connected.
Proof.
  pose proof (error_teardown_stops_reading cpython_ascii location garbage_then_fix
                (cmd location) (JStr "denied")
                (JObj [("permission", JStr "ACCESS_FINE_LOCATION");
                       ("granted", JBool false)])
                (JStr "ACCESS_FINE_LOCATION") (JBool false)
                "garbage" (line fix_line) [RecvBytes (line fix_line)])
    as H.
  split; [|split].
  - destruct (H connected) as (_ & Hp & _).
    exact (proj1 (proj2 (proj2 (Hp eq_refl eq_refl)))).
  - destruct (H stopped) as (_ & _ & Hs & _).
    exact (proj2 (Hs eq_refl)).
  - destruct (H connected) as (_ & _ & _ & _ & Hj).
    exact (proj2 (proj2 (proj2 (Hj eq_refl)))).
Defined.

(** C10, witness: two denied records around a granted one. *)
Lemma permission_handler_last_denial_wins_witness :
  _error
    (snd (_handle_permissions cpython_ascii
            (JArr [JObj [("permission", JStr "ACCESS_FINE_LOCATION");
                         ("granted", JBool false)];
                   JObj [("permission", JStr "READ_SMS"); ("granted", JBool true)];
                   JObj [("permission", JStr "CAMERA"); ("granted", JBool false)]])
            connected))
  = Some (JStr "Permission denied: CAMERA").
Proof.
  exact (proj1 (proj2 (proj2
    (permission_handler_last_denial_wins cpython_ascii
       [JObj [("permission", JStr "ACCESS_FINE_LOCATION"); ("granted", JBool false)];
        JObj [("permission", JStr "READ_SMS"); ("granted", JBool true)];
        JObj [("permission", JStr "CAMERA"); ("granted", JBool false)]]
       [(JStr "ACCESS_FINE_LOCATION", JBool false);
        (JStr "READ_SMS", JBool true);
        (JStr "CAMERA", JBool false)]
       connected eq_refl)))).
Defined.

(** C4, witness: a provider and a request in capitals. *)
Lemma location_construction_validates_witness :
  exists pc,
    TermuxLocationCommand_init cpython_ascii "GPS" "Once" "localhost" 80 10 = Ok pc.
Proof.
  apply (proj2 (proj1 (location_construction_validates cpython_ascii
                         "GPS" "Once" "localhost" 80 10))).
  split; [left; reflexivity | left; reflexivity].
Defined.

(** C8, witness: the request of the default location command, as sent. *)
Lemma outbound_traffic_is_one_request_witness :
  exists rest,
    trace (snd (run cpython_ascii location (server []) new_client)) =
      [EvDebug (LogConnecting "localhost" 80); EvSocket; EvConnect "localhost" 80;
       EvDebug (LogSending
         (js "{'extras': {'api_method': 'Location', 'provider': 'network', 'request': 'once'}}"));
       EvSendAll (line
         "{'extras': {'api_method': 'Location', 'provider': 'network', 'request': 'once'}}")]
      ++ rest.
Proof.
  exact (proj1 (proj2
    (outbound_traffic_is_one_request cpython_ascii location (server [])
       "network" "once" "7" (JArr [])
       (JObj [("extras", JObj [("api_method", JStr "Location");
                               ("provider", JStr "network");
                               ("request", JStr "once")])])))
    eq_refl eq_refl eq_refl eq_refl).
Defined.

(** C2, at the failing input: one read holds a permissions line with a denied
    record and then a location line.  The error names the permission, and
    the data handler still fires and sets the result; when the same two
    lines come in two reads it does not. *)
Theorem denied_permission_then_data_in_one_read :
  let s := snd (converse location (server [line denied_line ++ line fix_line])) in
  _error s = Some (JStr "Permission denied: ACCESS_FINE_LOCATION")
  /\ data_calls (trace s) = [location_fix]
  /\ _result s = Some location_fix
  /\ outcome location (server [line denied_line; line fix_line])
     = (None, Some (JStr "Permission denied: ACCESS_FINE_LOCATION")).
Proof. vm_compute. repeat split. Qed.

(** C5, at the failing input: one read holds two location lines.  Both are
    handed to the data handler, and the result is the second. *)
Theorem second_location_in_one_read_wins :
  let s := snd (converse location (server [line fix_line ++ line second_fix_line])) in
  data_calls (trace s) = [location_fix; second_fix]
  /\ _result s = Some second_fix
  /\ outcome location (server [line fix_line; line second_fix_line]) = (Some location_fix, None).
Proof. vm_compute. repeat split. Qed.

(** C6, at the failing input: the same bytes, an error line and a location
    line, in one read and in two.  The outcomes differ. *)
Theorem outcome_depends_on_read_boundaries :
  concat [line error_line ++ line fix_line] = concat [line error_line; line fix_line]
  /\ outcome location (server [line error_line ++ line fix_line])
     = (Some location_fix, Some (JStr "denied"))
  /\ outcome location (server [line error_line; line fix_line])
     = (None, Some (JStr "denied")).
Proof. vm_compute. repeat split. Qed.

(** * More of the client: whole conversations *)

Section Conversations.

Variable lib : pylib.

(** The error [run] records for an exception of its [try] body. *)
Definition error_of (e : exn) : json :=
  match e with
  | socket_timeout => JStr "Connection timed out"
  | ConnectionRefusedError => JStr "Connection refused"
  | _ => JStr ("Unexpected error: " ++ exn_str lib e)
  end.

(** The [except] clauses and the [finally] clause of [run], on what its
    [try] body left. *)
Definition conclude (rs : res unit * client) : res unit * client :=
  (Ok tt,
   after_disconnect
     match fst rs with
     | Ok _ => snd rs
     | Raise e => set_error (Some (error_of e)) (snd rs)
     end).

(** The [try] body of [run]. *)
Definition body (p : params) (net : network) : M unit :=
  bind (_connect p net)
    (fun _ => bind (_send_request lib p net)
       (fun _ => _receive_responses lib (cmd p) (inbound net))).

(** A fresh instance once its socket exists, once it is connected, and once
    the request [d] is sent. *)
Definition opened (p : params) (net : network) : client :=
  set_socket (Some {| close_outcome := close_raises net |})
    (emit EvSocket (emit (EvDebug (LogConnecting (host p) (port p))) new_client)).

Definition linked (p : params) (net : network) : client :=
  emit (EvConnect (host p) (port p)) (opened p net).

Definition ready (p : params) (net : network) (d : json) : client :=
  emit (EvSendAll (str_encode lib (json_dumps lib d) ++ [x0a]))
    (emit (EvDebug (LogSending (json_dumps lib d))) (linked p net)).

(** The number of [recv] calls. *)
Definition reads (t : list event) : nat := length (filter is_recv t).

(** The last events of every conversation that opened a socket: the close by
    whoever disconnects first, and the write of the stop flag by the
    [finally] clause when a handler disconnected before. *)
Definition closing (net : network) : list event :=
  EvStop :: close_events (Some {| close_outcome := close_raises net |}).

Lemma run_conclude :
  forall p net s, run lib p net s = conclude (body p net s).
Proof.
  intros p net s. unfold run, try_finally, try_except, conclude, body.
  destruct (bind _ _ s) as [[u|e] s1]; cbn [fst snd].
  - rewrite disconnect_eq. destruct u. reflexivity.
  - destruct e; unfold update, error_of; rewrite disconnect_eq; reflexivity.
Qed.

Lemma connect_eq :
  forall p net,
    socket_raises net = None ->
    (timeout p <? 0)%Z = false ->
    _connect p net new_client =
      (match connect_raises net with Some e => Raise e | None => Ok tt end,
       linked p net).
Proof.
  intros p net Hs Ht. unfold _connect. unfold_monad. rewrite Hs, Ht. cbn.
  destruct (connect_raises net); reflexivity.
Qed.

Lemma send_request_eq :
  forall p net,
    _send_request lib p net (linked p net) =
      match to_dict (cmd p) with
      | Raise e => (Raise e, linked p net)
      | Ok d =>
          (match sendall_raises net with Some e => Raise e | None => Ok tt end,
           ready p net d)
      end.
Proof.
  intros p net. unfold _send_request, to_json. unfold_monad. cbn.
  destruct (to_dict (cmd p)) as [d|e]; [|reflexivity]. cbn.
  destruct (sendall_raises net); reflexivity.
Qed.

Lemma body_ready :
  forall p net d,
    socket_raises net = None ->
    (timeout p <? 0)%Z = false ->
    connect_raises net = None ->
    to_dict (cmd p) = Ok d ->
    sendall_raises net = None ->
    body p net new_client = receive_loop lib (cmd p) (inbound net) (ready p net d).
Proof.
  intros p net d Hs Ht Hc Hd Hsend. unfold body. unfold bind at 1.
  rewrite (connect_eq p net Hs Ht), Hc. unfold bind at 1.
  rewrite send_request_eq, Hd, Hsend. reflexivity.
Qed.

(** X1.  When [connect] fails, the conversation ends without an exception:
    the error slot tells a timeout from a refusal from anything else, there
    is no result, nothing was sent or read, and the socket, which existed
    already, is closed. *)
Theorem connect_failure_outcome :
  forall (p : params) (net : network) (e : exn),
    socket_raises net = None ->
    (timeout p <? 0)%Z = false ->
    connect_raises net = Some e ->
    let r := run lib p net new_client in
    fst r = Ok tt
    /\ _result (snd r) = None
    /\ _error (snd r) =
         Some (match e with
               | socket_timeout => JStr "Connection timed out"
               | ConnectionRefusedError => JStr "Connection refused"
               | _ => JStr ("Unexpected error: " ++ exn_str lib e)
               end)
    /\ trace (snd r) =
         [EvDebug (LogConnecting (host p) (port p)); EvSocket;
          EvConnect (host p) (port p)] ++ closing net
    /\ _socket (snd r) = None.
Proof.
  intros p net e Hs Ht Hc. cbv zeta. rewrite run_conclude. unfold body, bind.
  rewrite (connect_eq p net Hs Ht), Hc. unfold conclude. cbn [fst snd].
  repeat split.
Qed.

(** X2.  With a negative timeout the socket is created and closed again and
    [connect] is never called: the conversation ends with the unexpected-error
    message of the ValueError that [settimeout] raised. *)
Theorem negative_timeout_never_connects :
  forall (p : params) (net : network),
    socket_raises net = None ->
    (timeout p < 0)%Z ->
    let r := run lib p net new_client in
    fst r = Ok tt
    /\ _result (snd r) = None
    /\ _error (snd r) =
         Some (JStr ("Unexpected error: "
                     ++ exn_str lib (ValueError "Timeout value out of range")))
    /\ trace (snd r) =
         [EvDebug (LogConnecting (host p) (port p)); EvSocket] ++ closing net.
Proof.
  intros p net Hs Ht. apply Z.ltb_lt in Ht. cbv zeta. rewrite run_conclude.
  unfold body, bind, _connect. unfold_monad. rewrite Hs, Ht. repeat split.
Qed.

(** X3.  When the socket cannot be created there is nothing to close: the
    conversation ends with the error of the exception and a trace without
    [close]. *)
Theorem socket_failure_closes_nothing :
  forall (p : params) (net : network) (e : exn),
    socket_raises net = Some e ->
    let r := run lib p net new_client in
    fst r = Ok tt
    /\ _result (snd r) = None
    /\ _error (snd r) = Some (error_of e)
    /\ trace (snd r) = [EvDebug (LogConnecting (host p) (port p)); EvStop].
Proof.
  intros p net e Hs. cbv zeta. rewrite run_conclude.
  unfold body, bind, _connect. unfold_monad. rewrite Hs. repeat split.
Qed.

(** X4.  The base class, which declares no API method, fails only after it
    connected: the socket is opened, connected and closed, nothing is sent,
    and the error is the unexpected-error message of NotImplementedError. *)
Theorem base_class_connects_before_failing :
  forall (p : params) (net : network),
    cmd p = TermuxRpcClient ->
    socket_raises net = None ->
    (timeout p <? 0)%Z = false ->
    connect_raises net = None ->
    let r := run lib p net new_client in
    fst r = Ok tt
    /\ _result (snd r) = None
    /\ _error (snd r) =
         Some (JStr ("Unexpected error: "
                     ++ exn_str lib (NotImplementedError
                                       "API_METHOD must be defined in subclass")))
    /\ trace (snd r) =
         [EvDebug (LogConnecting (host p) (port p)); EvSocket;
          EvConnect (host p) (port p)] ++ closing net.
Proof.
  intros p net Hv Hs Ht Hc.
  assert (E : body p net new_client
              = (Raise (NotImplementedError "API_METHOD must be defined in subclass"),
                 linked p net)).
  { unfold body. unfold bind at 1. rewrite (connect_eq p net Hs Ht), Hc.
    unfold bind at 1. rewrite send_request_eq, Hv. reflexivity. }
  cbv zeta. rewrite run_conclude, E. repeat split.
Qed.

(** X5.  When [sendall] fails the request was handed over once and nothing
    is read; a timeout while sending is reported as a connection timeout. *)
Theorem sendall_failure_outcome :
  forall (p : params) (net : network) (d : json) (e : exn),
    socket_raises net = None ->
    (timeout p <? 0)%Z = false ->
    connect_raises net = None ->
    to_dict (cmd p) = Ok d ->
    sendall_raises net = Some e ->
    let r := run lib p net new_client in
    fst r = Ok tt
    /\ _result (snd r) = None
    /\ _error (snd r) = Some (error_of e)
    /\ (e = socket_timeout -> _error (snd r) = Some (JStr "Connection timed out"))
    /\ sends (trace (snd r)) = [str_encode lib (json_dumps lib d) ++ [x0a]]
    /\ reads (trace (snd r)) = 0
    /\ closes (trace (snd r)) = 1.
Proof.
  intros p net d e Hs Ht Hc Hd Hsend.
  assert (E : body p net new_client = (Raise e, ready p net d)).
  { unfold body. unfold bind at 1. rewrite (connect_eq p net Hs Ht), Hc.
    unfold bind at 1. rewrite send_request_eq, Hd, Hsend. reflexivity. }
  cbv zeta. rewrite run_conclude, E. unfold conclude. cbn [fst snd].
  repeat split; try (intros He; subst e; reflexivity);
    cbn; destruct (close_raises net); reflexivity.
Qed.

(** The server accepted the connection and took the request [d]. *)
Definition established (p : params) (net : network) (d : json) : Prop :=
  socket_raises net = None
  /\ (timeout p <? 0)%Z = false
  /\ connect_raises net = None
  /\ to_dict (cmd p) = Ok d
  /\ sendall_raises net = None.

Definition no_newline (raw : list byte) : bool :=
  forallb (fun b => negb (Byte.eqb b x0a)) raw.

Lemma run_established :
  forall p net d,
    established p net d ->
    run lib p net new_client
    = conclude (receive_loop lib (cmd p) (inbound net) (ready p net d)).
Proof.
  intros p net d (Hs & Ht & Hc & Hd & Hsend).
  rewrite run_conclude, (body_ready p net d Hs Ht Hc Hd Hsend). reflexivity.
Qed.

(** One turn of the receive loop on a read that is one whole line. *)
Lemma receive_loop_line :
  forall v raw text script s k,
    _event_stop s = false ->
    _socket s = Some k ->
    no_newline raw = true ->
    bytes_decode lib (_data s ++ raw ++ [x0a]) = Some text ->
    receive_loop lib v (RecvBytes (raw ++ [x0a]) :: script) s =
      match _process_line lib v (str_strip lib text) (set_data [] (emit EvRecv s)) with
      | (Ok _, s1) => receive_loop lib v script s1
      | (Raise e, s1) =>
          if is_socket_timeout e then receive_timed_out s1 else (Raise e, s1)
      end.
Proof.
  intros v raw text script s k Hstop Hsock Hraw Hdec.
  rewrite (receive_loop_read lib v _ script s k Hstop Hsock)
    by (destruct raw; discriminate).
  rewrite feed_app. unfold bind at 1.
  rewrite feed_no_newline by exact Hraw.
  cbn [feed]. unfold_monad. cbn -[_process_line receive_loop].
  rewrite <- app_assoc, Hdec.
  match goal with
  | |- context [_process_line lib v _ ?st] =>
      change st with (set_data [] (emit EvRecv s))
  end.
  destruct (_process_line lib v (str_strip lib text) (set_data [] (emit EvRecv s)))
    as [[u|e] s1]; reflexivity.
Qed.

(** The same turn when the line is not UTF-8: the exception leaves the loop
    and the buffer keeps the bytes. *)
Lemma receive_loop_undecodable :
  forall v raw script s k,
    _event_stop s = false ->
    _socket s = Some k ->
    no_newline raw = true ->
    bytes_decode lib (_data s ++ raw ++ [x0a]) = None ->
    receive_loop lib v (RecvBytes (raw ++ [x0a]) :: script) s =
      (Raise UnicodeDecodeError, set_data (_data s ++ raw ++ [x0a]) (emit EvRecv s)).
Proof.
  intros v raw script s k Hstop Hsock Hraw Hdec.
  rewrite (receive_loop_read lib v _ script s k Hstop Hsock)
    by (destruct raw; discriminate).
  rewrite feed_app. unfold bind at 1.
  rewrite feed_no_newline by exact Hraw.
  cbn [feed]. unfold_monad. cbn -[_process_line receive_loop].
  rewrite <- app_assoc, Hdec. reflexivity.
Qed.

(** Reads that hold bytes and no newline only fill the buffer; the peer then
    closes. *)
Lemma receive_loop_partial :
  forall v chunks s k,
    _event_stop s = false ->
    _socket s = Some k ->
    forallb (fun c => negb (length c =? 0)%nat && no_newline c) chunks = true ->
    receive_loop lib v (map RecvBytes chunks) s =
      (Ok tt,
       {| _socket := Some k; _data := _data s ++ concat chunks;
          _result := _result s; _error := _error s; _event_stop := false;
          trace := trace s ++ repeat EvRecv (S (length chunks)) |}).
Proof.
  intros v chunks. induction chunks as [|c rest IH];
    intros [sk dd rr ee st t0] k Hstop Hsock H; cbn in Hstop, Hsock; subst st sk.
  - cbn. rewrite app_nil_r. reflexivity.
  - cbn [forallb] in H. apply andb_true_iff in H. destruct H as [Hc Hrest].
    apply andb_true_iff in Hc. destruct Hc as [Hne Hnl].
    cbn [map]. rewrite receive_loop_read with (k := k);
      [| reflexivity | reflexivity | destruct c; [discriminate Hne | discriminate]].
    rewrite feed_no_newline by exact Hnl.
    rewrite IH with (k := k); [| reflexivity | reflexivity | exact Hrest].
    cbn. rewrite <- !app_assoc. reflexivity.
Qed.

Lemma reads_app : forall a b, reads (a ++ b) = reads a + reads b.
Proof. intros a b. unfold reads. rewrite filter_app, length_app. reflexivity. Qed.

Lemma reads_repeat : forall n, reads (repeat EvRecv n) = n.
Proof. induction n as [|n IH]; [reflexivity|]. unfold reads in *. cbn. f_equal. exact IH. Qed.

Lemma reads_close_events : forall sk, reads (close_events sk) = 0.
Proof. intros [[[e|]]|]; reflexivity. Qed.

Lemma data_calls_app : forall a b, data_calls (a ++ b) = data_calls a ++ data_calls b.
Proof.
  induction a as [|e a IH]; intros b; cbn; [reflexivity|].
  destruct e; cbn; rewrite ?IH; reflexivity.
Qed.

Lemma data_calls_repeat : forall n, data_calls (repeat EvRecv n) = [].
Proof. induction n as [|n IH]; [reflexivity | exact IH]. Qed.

Lemma data_calls_close_events : forall sk, data_calls (close_events sk) = [].
Proof. intros [[[e|]]|]; reflexivity. Qed.

(** X6.  A server that sends bytes without ever ending a line and then closes
    gets neither a result nor an error: every read only filled the buffer,
    nothing was decoded or dispatched, and the bytes are still in the buffer. *)
Theorem unterminated_input_is_dropped :
  forall (p : params) (net : network) (d : json) (chunks : list (list byte)),
    established p net d ->
    inbound net = map RecvBytes chunks ->
    forallb (fun c => negb (length c =? 0)%nat && no_newline c) chunks = true ->
    let r := run lib p net new_client in
    fst r = Ok tt
    /\ _result (snd r) = None
    /\ _error (snd r) = None
    /\ _data (snd r) = concat chunks
    /\ reads (trace (snd r)) = S (length chunks)
    /\ data_calls (trace (snd r)) = [].
Proof.
  intros p net d chunks He Hin Hc. cbv zeta.
  rewrite (run_established p net d He), Hin.
  rewrite (receive_loop_partial (cmd p) chunks (ready p net d)
             {| close_outcome := close_raises net |} eq_refl eq_refl Hc).
  unfold conclude. cbn [fst snd]. repeat split.
  - cbn [trace after_disconnect _socket].
    rewrite !reads_app, reads_repeat.
    change (EvStop :: close_events (Some {| close_outcome := close_raises net |}))
      with ([EvStop] ++ close_events (Some {| close_outcome := close_raises net |})).
    rewrite reads_app, reads_close_events. cbn. lia.
  - cbn [trace after_disconnect _socket].
    rewrite !data_calls_app, data_calls_repeat.
    change (EvStop :: close_events (Some {| close_outcome := close_raises net |}))
      with ([EvStop] ++ close_events (Some {| close_outcome := close_raises net |})).
    rewrite data_calls_app, data_calls_close_events. reflexivity.
Qed.

(** The data lines a command takes as its final answer. *)
Definition accepts (v : variant) (data : json) : Prop :=
  match v with
  | TermuxRpcClient => False
  | TermuxLocationCommand _ _ => py_in "latitude" data = Ok true
  | TermuxNotificationListCommand _ => True
  | TermuxNotificationRemoveCommand _ => True
  end.

Lemma handle_accepted :
  forall v data s,
    py_in "error" data = Ok false ->
    py_in "permissions" data = Ok false ->
    accepts v data ->
    _handle_response lib v data s =
      (Ok tt, after_disconnect (set_result (Some data) (emit (EvHandleData data) s))).
Proof.
  intros v data s He Hp Ha. unfold _handle_response, _handle_data. unfold_monad.
  rewrite He, Hp. destruct v; cbn in Ha.
  - contradiction.
  - rewrite Ha. rewrite disconnect_eq. reflexivity.
  - rewrite disconnect_eq. reflexivity.
  - rewrite disconnect_eq. reflexivity.
Qed.

(** X7.  When the first read is one line that decodes to a value without the
    keys error and permissions, and the command accepts it (any such value
    for the notification commands, one with the key latitude for the
    location command), the conversation ends with that value as result and
    no error, after one read, one call of the data handler and one close;
    what the server sends afterwards is never read. *)
Theorem first_accepted_line_is_the_outcome :
  forall (p : params) (net : network) (d : json) (raw : list byte) (text : string)
         (data : json) (script : list recv_event),
    established p net d ->
    inbound net = RecvBytes (raw ++ [x0a]) :: script ->
    no_newline raw = true ->
    bytes_decode lib (raw ++ [x0a]) = Some text ->
    json_loads lib (str_strip lib text) = Some data ->
    py_in "error" data = Ok false ->
    py_in "permissions" data = Ok false ->
    accepts (cmd p) data ->
    let r := run lib p net new_client in
    fst r = Ok tt
    /\ _result (snd r) = Some data
    /\ _error (snd r) = None
    /\ reads (trace (snd r)) = 1
    /\ closes (trace (snd r)) = 1
    /\ data_calls (trace (snd r)) = [data].
Proof.
  intros p net d raw text data script Hest Hin Hraw Hdec Hj He Hp Ha.
  assert (E : receive_loop lib (cmd p) (inbound net) (ready p net d)
              = (Ok tt, after_disconnect
                          (set_result (Some data)
                             (emit (EvHandleData data)
                                (set_data [] (emit EvRecv (ready p net d))))))).
  { rewrite Hin.
    rewrite (receive_loop_line (cmd p) raw text script (ready p net d)
               {| close_outcome := close_raises net |} eq_refl eq_refl Hraw Hdec).
    unfold _process_line. rewrite Hj.
    rewrite (handle_accepted (cmd p) data _ He Hp Ha).
    apply receive_loop_stopped. reflexivity. }
  cbv zeta. rewrite (run_established p net d Hest), E. unfold conclude.
  cbn [fst snd]. repeat split; cbn; destruct (close_raises net); reflexivity.
Qed.

(** X8.  When the first read is one line that decodes to an object with the
    key error, the conversation ends with the value of that key in the error
    slot and no result; the data handler is never called and nothing more is
    read. *)
Theorem remote_error_is_the_outcome :
  forall (p : params) (net : network) (d : json) (raw : list byte) (text : string)
         (data msg : json) (script : list recv_event),
    established p net d ->
    inbound net = RecvBytes (raw ++ [x0a]) :: script ->
    no_newline raw = true ->
    bytes_decode lib (raw ++ [x0a]) = Some text ->
    json_loads lib (str_strip lib text) = Some data ->
    py_in "error" data = Ok true ->
    py_getitem data "error" = Ok msg ->
    let r := run lib p net new_client in
    fst r = Ok tt
    /\ _result (snd r) = None
    /\ _error (snd r) = Some msg
    /\ reads (trace (snd r)) = 1
    /\ closes (trace (snd r)) = 1
    /\ data_calls (trace (snd r)) = [].
Proof.
  intros p net d raw text data msg script Hest Hin Hraw Hdec Hj He Hm.
  assert (E : receive_loop lib (cmd p) (inbound net) (ready p net d)
              = _handle_error msg (set_data [] (emit EvRecv (ready p net d)))).
  { rewrite Hin.
    rewrite (receive_loop_line (cmd p) raw text script (ready p net d)
               {| close_outcome := close_raises net |} eq_refl eq_refl Hraw Hdec).
    unfold _process_line. rewrite Hj. unfold _handle_response. unfold bind at 1 2.
    unfold lift. rewrite He, Hm. rewrite handle_error_eq.
    apply receive_loop_stopped. reflexivity. }
  cbv zeta. rewrite (run_established p net d Hest), E, handle_error_eq.
  unfold conclude. cbn [fst snd].
  repeat split; cbn; destruct (close_raises net); reflexivity.
Qed.

(** X9.  When the first [recv] raises, nothing more is read: a timeout gives
    the receive-timeout error, which differs from the one of a timeout while
    connecting; any other exception gives the error [run] records for it. *)
Theorem receive_failure_outcome :
  forall (p : params) (net : network) (d : json) (e : exn)
         (script : list recv_event),
    established p net d ->
    inbound net = RecvRaise e :: script ->
    let r := run lib p net new_client in
    fst r = Ok tt
    /\ _result (snd r) = None
    /\ _error (snd r) =
         Some (if is_socket_timeout e then JStr "Receive timed out" else error_of e)
    /\ reads (trace (snd r)) = 1
    /\ closes (trace (snd r)) = 1.
Proof.
  intros p net d e script Hest Hin. cbv zeta.
  rewrite (run_established p net d Hest), Hin. cbn [receive_loop].
  cbn [ready linked opened emit set_socket _event_stop _socket new_client].
  unfold conclude, receive_timed_out, update.
  destruct (is_socket_timeout e); cbn [fst snd];
    repeat split; cbn; destruct (close_raises net); reflexivity.
Qed.

Definition is_scalar (data : json) : bool :=
  match data with
  | JNull | JBool _ | JNum _ => true
  | _ => false
  end.

(** X10.  A line that is valid JSON but a number, a boolean or null ends the
    conversation, unlike a line that is not JSON: the membership test raises
    TypeError, which [run] records as an unexpected error; no handler is
    called and nothing more is read. *)
Theorem scalar_line_aborts :
  forall (p : params) (net : network) (d : json) (raw : list byte) (text : string)
         (data : json) (script : list recv_event),
    established p net d ->
    inbound net = RecvBytes (raw ++ [x0a]) :: script ->
    no_newline raw = true ->
    bytes_decode lib (raw ++ [x0a]) = Some text ->
    json_loads lib (str_strip lib text) = Some data ->
    is_scalar data = true ->
    let r := run lib p net new_client in
    fst r = Ok tt
    /\ _result (snd r) = None
    /\ _error (snd r) =
         Some (JStr ("Unexpected error: "
                     ++ exn_str lib (TypeError "argument is not iterable")))
    /\ reads (trace (snd r)) = 1
    /\ existsb dispatches (trace (snd r)) = false.
Proof.
  intros p net d raw text data script Hest Hin Hraw Hdec Hj Hs.
  assert (E : receive_loop lib (cmd p) (inbound net) (ready p net d)
              = (Raise (TypeError "argument is not iterable"),
                 set_data [] (emit EvRecv (ready p net d)))).
  { rewrite Hin.
    rewrite (receive_loop_line (cmd p) raw text script (ready p net d)
               {| close_outcome := close_raises net |} eq_refl eq_refl Hraw Hdec).
    unfold _process_line. rewrite Hj. unfold _handle_response. unfold bind at 1.
    unfold lift. destruct data; try discriminate Hs; reflexivity. }
  cbv zeta. rewrite (run_established p net d Hest), E. unfold conclude.
  cbn [fst snd]. repeat split; cbn; destruct (close_raises net); reflexivity.
Qed.

(** X11.  A line that is not UTF-8 ends the conversation with the
    unexpected-error message of UnicodeDecodeError; the buffer is not cleared
    and still holds the line. *)
Theorem undecodable_line_aborts :
  forall (p : params) (net : network) (d : json) (raw : list byte)
         (script : list recv_event),
    established p net d ->
    inbound net = RecvBytes (raw ++ [x0a]) :: script ->
    no_newline raw = true ->
    bytes_decode lib (raw ++ [x0a]) = None ->
    let r := run lib p net new_client in
    fst r = Ok tt
    /\ _result (snd r) = None
    /\ _error (snd r) =
         Some (JStr ("Unexpected error: " ++ exn_str lib UnicodeDecodeError))
    /\ _data (snd r) = raw ++ [x0a]
    /\ reads (trace (snd r)) = 1.
Proof.
  intros p net d raw script Hest Hin Hraw Hdec. cbv zeta.
  rewrite (run_established p net d Hest), Hin.
  rewrite (receive_loop_undecodable (cmd p) raw script (ready p net d)
             {| close_outcome := close_raises net |} eq_refl eq_refl Hraw Hdec).
  unfold conclude. cbn [fst snd].
  repeat split; cbn; destruct (close_raises net); reflexivity.
Qed.

Lemma has_key_get :
  forall k members,
    has_key k members = match dict_get k members with Some _ => true | None => false end.
Proof.
  intros k members. unfold has_key.
  induction members as [|[k' x] rest IH]; cbn; [reflexivity|].
  destruct (String.eqb k k'); [reflexivity | exact IH].
Qed.

(** X12.  An object with the key error goes to the error handler whatever
    else it holds, a location or a permission list included: the value of
    the key becomes the error, the result slot keeps its value and no other
    handler is called.  Without that key and with the key permissions it
    goes to the permission handler. *)
Theorem error_key_takes_precedence :
  forall (v : variant) (members : list (string * json)) (msg perms : json)
         (s : client),
    (dict_get "error" members = Some msg ->
     let r := _handle_response lib v (JObj members) s in
     r = _handle_error msg s
     /\ _error (snd r) = Some msg
     /\ _result (snd r) = _result s
     /\ data_calls (trace (snd r)) = data_calls (trace s)
     /\ permission_visits (trace (snd r)) = permission_visits (trace s))
    /\ (dict_get "error" members = None ->
        dict_get "permissions" members = Some perms ->
        _handle_response lib v (JObj members) s = _handle_permissions lib perms s).
Proof.
  intros v members msg perms s. split.
  - intros Hm. cbv zeta.
    assert (E : _handle_response lib v (JObj members) s = _handle_error msg s).
    { unfold _handle_response. unfold bind at 1. unfold lift. cbn [py_in].
      rewrite has_key_get, Hm. unfold bind at 1. cbn [py_getitem]. rewrite Hm.
      reflexivity. }
    rewrite E, handle_error_eq. cbn [snd]. repeat split.
    + cbn. rewrite !data_calls_app. cbn.
      rewrite data_calls_close_events, !app_nil_r. reflexivity.
    + cbn. rewrite !permission_visits_app. cbn.
      rewrite permission_visits_close_events, !app_nil_r. reflexivity.
  - intros He Hp. unfold _handle_response. unfold bind at 1. unfold lift.
    cbn [py_in]. rewrite !has_key_get, He. unfold bind at 1.
    rewrite Hp. unfold bind at 1. cbn [py_getitem]. rewrite Hp. reflexivity.
Qed.

(** X13.  The location command skips a data line without the key latitude:
    the receive loop goes on with the next read from a state that differs
    only by the emptied buffer and the two events of the line. *)
Theorem line_without_latitude_is_skipped :
  forall (provider request : string) (raw : list byte) (text : string)
         (data : json) (script : list recv_event) (s : client) (k : sock),
    _event_stop s = false ->
    _socket s = Some k ->
    no_newline raw = true ->
    bytes_decode lib (_data s ++ raw ++ [x0a]) = Some text ->
    json_loads lib (str_strip lib text) = Some data ->
    py_in "error" data = Ok false ->
    py_in "permissions" data = Ok false ->
    py_in "latitude" data = Ok false ->
    receive_loop lib (TermuxLocationCommand provider request)
      (RecvBytes (raw ++ [x0a]) :: script) s
    = receive_loop lib (TermuxLocationCommand provider request) script
        {| _socket := Some k; _data := []; _result := _result s;
           _error := _error s; _event_stop := false;
           trace := trace s ++ [EvRecv; EvHandleData data] |}.
Proof.
  intros provider request raw text data script [sk dd rr ee st t0] k
         Hstop Hsock Hraw Hdec Hj He Hp Hl.
  cbn in Hstop, Hsock. subst st sk.
  rewrite receive_loop_line with (k := k) (text := text);
    [| reflexivity | reflexivity | exact Hraw | exact Hdec].
  unfold _process_line. rewrite Hj. unfold _handle_response, _handle_data.
  unfold_monad. rewrite He, Hp, Hl. unfold emit, set_data.
  cbn -[receive_loop]. rewrite <- app_assoc. reflexivity.
Qed.

Definition permission_log (field : json * json) : event :=
  EvDebug (LogPermission (fst field) (snd field)).

Lemma permission_loop_granted :
  forall perms fields s,
    map perm_fields perms = map Some fields ->
    forallb (fun field => truthy lib (snd field)) fields = true ->
    permission_loop lib perms s =
      (Ok tt,
       {| _socket := _socket s; _data := _data s; _result := _result s;
          _error := _error s; _event_stop := _event_stop s;
          trace := trace s ++ map permission_log fields |}).
Proof.
  induction perms as [|perm rest IH]; intros fields [sk dd rr ee st t0] H Hg.
  - destruct fields; [|discriminate H]. cbn. rewrite app_nil_r. reflexivity.
  - destruct fields as [|[name granted] frest]; [discriminate H|].
    cbn [map] in H. inversion H as [[Hp Hr]].
    cbn [forallb snd] in Hg. apply andb_true_iff in Hg. destruct Hg as [Hg Hrest].
    cbn [permission_loop]. unfold bind.
    rewrite (permission_step_eq lib perm name granted _ Hp). cbv zeta.
    unfold denied. cbn [snd]. rewrite Hg. cbn [negb].
    rewrite (IH frest _ Hr Hrest). cbn. rewrite <- app_assoc. reflexivity.
Qed.

(** X14.  A permission list whose records are all granted changes no
    attribute: the handler only logs each record, so the stop flag stays
    clear and the receive loop goes on waiting for data. *)
Theorem granted_permissions_change_nothing :
  forall (perms : list json) (fields : list (json * json)) (s : client),
    map perm_fields perms = map Some fields ->
    forallb (fun field => truthy lib (snd field)) fields = true ->
    let r := _handle_permissions lib (JArr perms) s in
    fst r = Ok tt
    /\ attributes (snd r) = attributes s
    /\ trace (snd r) =
         trace s ++ EvHandlePermissions (JArr perms) :: map permission_log fields.
Proof.
  intros perms fields s H Hg.
  assert (E : _handle_permissions lib (JArr perms) s =
              (Ok tt,
               {| _socket := _socket s; _data := _data s; _result := _result s;
                  _error := _error s; _event_stop := _event_stop s;
                  trace := trace s ++ EvHandlePermissions (JArr perms)
                                        :: map permission_log fields |})).
  { unfold _handle_permissions. unfold bind at 1. unfold update.
    unfold bind at 1. unfold lift. cbn [py_iter].
    rewrite (permission_loop_granted perms fields _ H Hg).
    cbn. rewrite <- app_assoc. reflexivity. }
  cbv zeta. rewrite E. repeat split.
Qed.

Lemma permission_loop_app :
  forall a b s,
    permission_loop lib (a ++ b) s
    = bind (permission_loop lib a) (fun _ => permission_loop lib b) s.
Proof.
  induction a as [|perm a IH]; intros b s; [reflexivity|].
  cbn [permission_loop app]. rewrite bind_assoc.
  apply bind_ext. intros _ s'. apply IH.
Qed.

Lemma permission_step_incomplete :
  forall perm s,
    perm_fields perm = None ->
    exists e, permission_step lib perm s = (Raise e, s)
              /\ (forall members name,
                    perm = JObj members ->
                    dict_get "permission" members = Some name ->
                    e = KeyError "granted").
Proof.
  intros perm s H. unfold perm_fields in H. unfold permission_step. unfold_monad.
  destruct (py_getitem perm "permission") as [n|e] eqn:Hn.
  - destruct (py_getitem perm "granted") as [g|e] eqn:Hg; [discriminate H|].
    exists e. split; [reflexivity|]. intros members name Hm Hd. subst perm.
    cbn in Hg. destruct (dict_get "granted" members); [discriminate Hg|].
    inversion Hg. reflexivity.
  - exists e. split; [reflexivity|]. intros members name Hm Hd. subst perm.
    cbn in Hn. rewrite Hd in Hn. discriminate Hn.
Qed.

(** X15.  A record without one of the two keys makes the permission handler
    raise at that record: the records before it were visited and their
    denials took effect, the records after it are never visited.  When only
    the key granted is missing from an object the exception is the KeyError
    of that key. *)
Theorem incomplete_permission_record_raises :
  forall (good : list json) (fields : list (json * json)) (bad : json)
         (rest : list json) (s : client),
    map perm_fields good = map Some fields ->
    perm_fields bad = None ->
    let r := _handle_permissions lib (JArr (good ++ bad :: rest)) s in
    (exists e, fst r = Raise e
               /\ (forall members name,
                     bad = JObj members ->
                     dict_get "permission" members = Some name ->
                     e = KeyError "granted"))
    /\ permission_visits (trace (snd r)) = permission_visits (trace s) ++ fields
    /\ _error (snd r) = match rev (filter (denied lib) fields) with
                        | [] => _error s
                        | (name, _) :: _ =>
                            Some (JStr ("Permission denied: " ++ py_format lib name))
                        end
    /\ _event_stop (snd r) = (existsb (denied lib) fields || _event_stop s).
Proof.
  intros good fields bad rest s Hgood Hbad.
  destruct (permission_loop_spec lib good fields
              (emit (EvHandlePermissions (JArr (good ++ bad :: rest))) s) Hgood)
    as (H1 & H2 & H3 & H4 & _).
  destruct (permission_loop lib good
              (emit (EvHandlePermissions (JArr (good ++ bad :: rest))) s))
    as [r1 s1] eqn:Hloop.
  cbn [fst snd] in *. subst r1.
  destruct (permission_step_incomplete bad s1 Hbad) as [e [He Hk]].
  assert (E : _handle_permissions lib (JArr (good ++ bad :: rest)) s = (Raise e, s1)).
  { unfold _handle_permissions. unfold bind at 1. unfold update.
    unfold bind at 1. unfold lift. cbn [py_iter].
    rewrite permission_loop_app. unfold bind at 1. rewrite Hloop.
    cbn [permission_loop]. unfold bind at 1. rewrite He. reflexivity. }
  cbv zeta. rewrite E. cbn [fst snd]. repeat split.
  - exists e. split; [reflexivity | exact Hk].
  - rewrite H2. cbn. rewrite permission_visits_app, app_nil_r. reflexivity.
  - exact H3.
  - exact H4.
Qed.

(** ** What does not depend on the trace *)

(** [m] does not read the trace: on two instances with the same attributes it
    answers the same, leaves the same attributes and adds the same events. *)
Definition oblivious {A} (m : M A) : Prop :=
  forall s s',
    attributes s = attributes s' ->
    exists ext,
      fst (m s) = fst (m s')
      /\ attributes (snd (m s)) = attributes (snd (m s'))
      /\ trace (snd (m s)) = trace s ++ ext
      /\ trace (snd (m s')) = trace s' ++ ext.

Ltac same_attributes :=
  intros; unfold attributes in *; cbn in *; congruence.

Section Oblivious.

Context {A B : Type}.

Lemma oblivious_ret : forall a : A, oblivious (ret a).
Proof.
  intros a s s' H. exists []. cbn. rewrite !app_nil_r. repeat split. exact H.
Qed.

Lemma oblivious_raise : forall e, oblivious (@raise A e).
Proof.
  intros e s s' H. exists []. cbn. rewrite !app_nil_r. repeat split. exact H.
Qed.

Lemma oblivious_lift : forall r : res A, oblivious (lift r).
Proof.
  intros r s s' H. exists []. cbn. rewrite !app_nil_r. repeat split. exact H.
Qed.

Lemma oblivious_read :
  forall f : client -> A,
    (forall s s', attributes s = attributes s' -> f s = f s') ->
    oblivious (read f).
Proof.
  intros f Hf s s' H. exists []. cbn. rewrite !app_nil_r, (Hf s s' H).
  repeat split. exact H.
Qed.

Lemma oblivious_write :
  forall f : client -> client,
    (forall s s', attributes s = attributes s' -> attributes (f s) = attributes (f s')) ->
    (forall s, trace (f s) = trace s) ->
    oblivious (update f).
Proof.
  intros f Hf Ht s s' H. exists []. cbn. rewrite !app_nil_r, !Ht.
  repeat split. apply Hf, H.
Qed.

Lemma oblivious_emit : forall e, oblivious (update (emit e)).
Proof. intros e s s' H. exists [e]. cbn. repeat split. exact H. Qed.

Lemma oblivious_bind :
  forall (m : M A) (k : A -> M B),
    oblivious m -> (forall a, oblivious (k a)) -> oblivious (bind m k).
Proof.
  intros m k Hm Hk s s' H. unfold bind.
  destruct (Hm s s' H) as (ext & Hr & Ha & Ht & Ht').
  destruct (m s) as [r1 s1], (m s') as [r1' s1']. cbn [fst snd] in *. subst r1'.
  destruct r1 as [a|e].
  - destruct (Hk a s1 s1' Ha) as (ext2 & Hr2 & Ha2 & Ht2 & Ht2').
    exists (ext ++ ext2). rewrite Ht2, Ht2', Ht, Ht', <- !app_assoc.
    repeat split; assumption.
  - exists ext. repeat split; assumption.
Qed.

Lemma oblivious_try_except :
  forall (m : M A) (h : exn -> M A),
    oblivious m -> (forall e, oblivious (h e)) -> oblivious (try_except m h).
Proof.
  intros m h Hm Hh s s' H. unfold try_except.
  destruct (Hm s s' H) as (ext & Hr & Ha & Ht & Ht').
  destruct (m s) as [r1 s1], (m s') as [r1' s1']. cbn [fst snd] in *. subst r1'.
  destruct r1 as [a|e].
  - exists ext. repeat split; assumption.
  - destruct (Hh e s1 s1' Ha) as (ext2 & Hr2 & Ha2 & Ht2 & Ht2').
    exists (ext ++ ext2). rewrite Ht2, Ht2', Ht, Ht', <- !app_assoc.
    repeat split; assumption.
Qed.

Lemma oblivious_try_finally :
  forall (m : M A) (f : M unit),
    oblivious m -> oblivious f -> oblivious (try_finally m f).
Proof.
  intros m f Hm Hf s s' H. unfold try_finally.
  destruct (Hm s s' H) as (ext & Hr & Ha & Ht & Ht').
  destruct (m s) as [r1 s1], (m s') as [r1' s1']. cbn [fst snd] in *. subst r1'.
  destruct (Hf s1 s1' Ha) as (ext2 & Hr2 & Ha2 & Ht2 & Ht2').
  destruct (f s1) as [r2 s2], (f s1') as [r2' s2']. cbn [fst snd] in *. subst r2'.
  exists (ext ++ ext2).
  destruct r2; cbn [fst snd]; rewrite Ht2, Ht2', Ht, Ht', <- !app_assoc;
    repeat split; assumption.
Qed.

Lemma oblivious_ext :
  forall m m' : M A, (forall s, m s = m' s) -> oblivious m' -> oblivious m.
Proof.
  intros m m' He Hm s s' H. rewrite !He. apply Hm, H.
Qed.

End Oblivious.

Lemma oblivious_disconnect : oblivious disconnect.
Proof.
  intros s s' H. exists (EvStop :: close_events (_socket s)).
  rewrite !disconnect_eq. cbn [fst snd trace after_disconnect].
  assert (Hs : _socket s = _socket s') by same_attributes.
  rewrite <- Hs. repeat split. same_attributes.
Qed.

Ltac blind_step :=
  first
    [ apply oblivious_ret | apply oblivious_raise | apply oblivious_lift
    | apply oblivious_disconnect | apply oblivious_emit
    | apply oblivious_write; [same_attributes | reflexivity]
    | apply oblivious_read; same_attributes
    | match goal with
      | |- oblivious (if ?b then _ else _) => destruct b
      | |- oblivious (match ?x with _ => _ end) => destruct x
      end
    | apply oblivious_bind; [|intro] ].
Ltac blind := repeat blind_step.

Lemma oblivious_handle_data : forall v data, oblivious (_handle_data v data).
Proof. intros v data. unfold _handle_data. blind. Qed.

Lemma oblivious_handle_error : forall msg, oblivious (_handle_error msg).
Proof. intros msg. unfold _handle_error. blind. Qed.

Lemma oblivious_permission_step : forall perm, oblivious (permission_step lib perm).
Proof. intros perm. unfold permission_step. blind. Qed.

Lemma oblivious_permission_loop :
  forall perms, oblivious (permission_loop lib perms).
Proof.
  induction perms as [|perm rest IH]; cbn [permission_loop].
  - apply oblivious_ret.
  - apply oblivious_bind; [apply oblivious_permission_step | intro; exact IH].
Qed.

Lemma oblivious_handle_permissions :
  forall perms, oblivious (_handle_permissions lib perms).
Proof.
  intros perms. unfold _handle_permissions.
  apply oblivious_bind; [apply oblivious_emit|]. intro.
  apply oblivious_bind; [apply oblivious_lift|]. intro.
  apply oblivious_permission_loop.
Qed.

Lemma oblivious_handle_response :
  forall v data, oblivious (_handle_response lib v data).
Proof.
  intros v data. unfold _handle_response.
  apply oblivious_bind; [apply oblivious_lift|]. intros [|].
  - apply oblivious_bind; [apply oblivious_lift|]. intro.
    apply oblivious_handle_error.
  - apply oblivious_bind; [apply oblivious_lift|]. intros [|].
    + apply oblivious_bind; [apply oblivious_lift|]. intro.
      apply oblivious_handle_permissions.
    + apply oblivious_handle_data.
Qed.

Lemma oblivious_process_line :
  forall v line, oblivious (_process_line lib v line).
Proof.
  intros v line. unfold _process_line.
  destruct (json_loads lib line); [apply oblivious_handle_response|].
  apply oblivious_bind; [|intro; apply oblivious_emit].
  apply oblivious_write; [same_attributes | reflexivity].
Qed.

Lemma oblivious_feed : forall v response, oblivious (feed lib v response).
Proof.
  intros v response. induction response as [|b rest IH]; cbn [feed].
  - apply oblivious_ret.
  - apply oblivious_bind; [|intro; apply oblivious_bind; [|intro; exact IH]].
    + apply oblivious_write; [same_attributes | reflexivity].
    + destruct (Byte.eqb b x0a); [|apply oblivious_ret].
      apply oblivious_bind; [apply oblivious_read; same_attributes|]. intro d.
      destruct (bytes_decode lib d); [|apply oblivious_raise].
      apply oblivious_bind; [|intro; apply oblivious_process_line].
      apply oblivious_write; [same_attributes | reflexivity].
Qed.

(** What the receive loop does with a read once [recv] returned it. *)
Definition after_read (v : variant) (response : list byte)
    (script : list recv_event) : M unit :=
  fun s0 =>
    match feed lib v response s0 with
    | (Ok _, s1) => receive_loop lib v script s1
    | (Raise e, s1) =>
        if is_socket_timeout e then receive_timed_out s1 else (Raise e, s1)
    end.

Lemma oblivious_after_read :
  forall v response script,
    oblivious (receive_loop lib v script) ->
    oblivious (after_read v response script).
Proof.
  intros v response script IH s s' H. unfold after_read.
  destruct (oblivious_feed v response s s' H) as (ext & Hr & Ha & Ht & Ht').
  destruct (feed lib v response s) as [r1 s1],
           (feed lib v response s') as [r1' s1'].
  cbn [fst snd] in *. subst r1'. destruct r1 as [u|e].
  - destruct (IH s1 s1' Ha) as (ext2 & Hr2 & Ha2 & Ht2 & Ht2').
    exists (ext ++ ext2). rewrite Ht2, Ht2', Ht, Ht', <- !app_assoc.
    repeat split; assumption.
  - exists ext. destruct (is_socket_timeout e); cbn; repeat split;
      try assumption; same_attributes.
Qed.

Lemma oblivious_receive_loop :
  forall v script, oblivious (receive_loop lib v script).
Proof.
  intros v script. induction script as [|ev rest IH]; intros s s' H;
    assert (Hstop : _event_stop s = _event_stop s') by same_attributes;
    assert (Hsock : _socket s = _socket s') by same_attributes;
    cbn [receive_loop]; rewrite <- Hstop, <- Hsock;
    (destruct (_event_stop s);
     [exists []; rewrite !app_nil_r; repeat split; exact H|]);
    (destruct (_socket s) as [k|];
     [|exists []; rewrite !app_nil_r; repeat split; exact H]).
  - exists [EvRecv]. cbn. repeat split. same_attributes.
  - destruct ev as [bs|e].
    + destruct bs as [|b bs];
        [exists [EvRecv]; cbn; repeat split; same_attributes|].
      assert (H0 : attributes (emit EvRecv s) = attributes (emit EvRecv s'))
        by same_attributes.
      destruct (oblivious_after_read v (b :: bs) rest IH _ _ H0)
        as (ext & Hr & Ha & Ht & Ht').
      unfold after_read in *. exists (EvRecv :: ext).
      rewrite Ht, Ht'. cbn [trace emit]. rewrite <- !app_assoc.
      repeat split; assumption.
    + exists [EvRecv]. destruct (is_socket_timeout e); cbn; repeat split;
        same_attributes.
Qed.

(** A read may come in two pieces: as long as the first piece leaves the
    stop flag clear and the socket open (or raises), the conversation answers
    the same, ends with the same attributes and adds the same events as when
    both pieces come in one read; the only difference is the one more
    [recv]. *)
Lemma split_read_general :
  forall (v : variant) (a b : list byte) (script : list recv_event)
         (s : client) (k : sock),
    _event_stop s = false ->
    _socket s = Some k ->
    a <> [] ->
    b <> [] ->
    (fst (feed lib v a (emit EvRecv s)) = Ok tt ->
     _event_stop (snd (feed lib v a (emit EvRecv s))) = false
     /\ _socket (snd (feed lib v a (emit EvRecv s))) <> None) ->
    let one := receive_loop lib v (RecvBytes (a ++ b) :: script) s in
    let two := receive_loop lib v (RecvBytes a :: RecvBytes b :: script) s in
    fst two = fst one
    /\ attributes (snd two) = attributes (snd one)
    /\ exists ext,
         trace (snd one) = trace (snd (feed lib v a (emit EvRecv s))) ++ ext
         /\ trace (snd two) =
              trace (snd (feed lib v a (emit EvRecv s)))
              ++ match fst (feed lib v a (emit EvRecv s)) with
                 | Ok _ => [EvRecv]
                 | Raise _ => []
                 end ++ ext.
Proof.
  intros v a b script s k Hstop Hsock Ha Hb Hopen. cbv zeta.
  rewrite (receive_loop_read lib v (a ++ b) script s k Hstop Hsock)
    by (destruct a; [contradiction | discriminate]).
  rewrite (receive_loop_read lib v a _ s k Hstop Hsock) by exact Ha.
  rewrite feed_app. unfold bind at 1 2 3.
  destruct (feed lib v a (emit EvRecv s)) as [[u|e] s1]; cbn [fst snd] in *.
  - destruct u. destruct (Hopen eq_refl) as [Hs1 Hk1].
    destruct (_socket s1) as [k1|] eqn:Hsock1; [|contradiction].
    rewrite (receive_loop_read lib v b script s1 k1 Hs1 Hsock1) by exact Hb.
    assert (H0 : attributes (emit EvRecv s1) = attributes s1) by reflexivity.
    destruct (oblivious_after_read v b script (oblivious_receive_loop v script)
                (emit EvRecv s1) s1 H0) as (ext & Hr & Hat & Ht & Ht').
    unfold after_read in *. split; [exact Hr|]. split; [exact Hat|].
    exists ext. split; [exact Ht'|]. rewrite Ht. cbn [trace emit].
    rewrite <- app_assoc. reflexivity.
  - split; [reflexivity|]. split; [reflexivity|].
    exists []. rewrite !app_nil_r.
    destruct (is_socket_timeout e); split; reflexivity.
Qed.

(** X16.  A read may come in two pieces.  When the first piece holds no
    newline, so that it ends inside the line it began in, be it inside a
    character of several bytes, or more generally when handling the first
    piece leaves the stop flag clear and the socket open (or raises), the
    conversation answers the same, ends with the same attributes and adds
    the same events as when both pieces come in one read; the only
    difference is the one more [recv]. *)
Theorem split_read_same_outcome :
  forall (v : variant) (a b : list byte) (script : list recv_event)
         (s : client) (k : sock),
    _event_stop s = false ->
    _socket s = Some k ->
    a <> [] ->
    b <> [] ->
    (no_newline a = true
     \/ (fst (feed lib v a (emit EvRecv s)) = Ok tt ->
         _event_stop (snd (feed lib v a (emit EvRecv s))) = false
         /\ _socket (snd (feed lib v a (emit EvRecv s))) <> None)) ->
    let one := receive_loop lib v (RecvBytes (a ++ b) :: script) s in
    let two := receive_loop lib v (RecvBytes a :: RecvBytes b :: script) s in
    fst two = fst one
    /\ attributes (snd two) = attributes (snd one)
    /\ exists ext,
         trace (snd one) = trace (snd (feed lib v a (emit EvRecv s))) ++ ext
         /\ trace (snd two) =
              trace (snd (feed lib v a (emit EvRecv s)))
              ++ match fst (feed lib v a (emit EvRecv s)) with
                 | Ok _ => [EvRecv]
                 | Raise _ => []
                 end ++ ext.
Proof.
  intros v a b script s k Hstop Hsock Ha Hb Hpiece.
  apply (split_read_general v a b script s k Hstop Hsock Ha Hb).
  destruct Hpiece as [Hnl | Hopen]; [|exact Hopen].
  intros _. rewrite feed_no_newline by exact Hnl. cbn [snd _event_stop _socket set_data emit].
  rewrite Hstop, Hsock. split; [reflexivity | discriminate].
Qed.

(** What a buffer holds after more bytes went through it: the bytes after the
    last newline. *)
Definition pending (buffer response : list byte) : list byte :=
  fold_left (fun buf b => if Byte.eqb b x0a then [] else buf ++ [b]) response buffer.

Lemma process_line_keeps_buffer :
  forall v line s,
    _data (snd (_process_line lib v line s)) = _data s.
Proof.
  intros v line s.
  apply (keeps_process_line lib (fun s' => _data s' = _data s));
    try (intros; assumption); reflexivity.
Qed.

(** X17.  After a read is handled without an exception the buffer holds the
    bytes that follow the last newline seen, and nothing else: no handler
    touches the buffer, every complete line was cleared out of it, and a
    buffer that had no newline has none. *)
Theorem buffer_holds_the_unfinished_line :
  forall (v : variant) (response : list byte) (s : client),
    fst (feed lib v response s) = Ok tt ->
    _data (snd (feed lib v response s)) = pending (_data s) response
    /\ (no_newline (_data s) = true ->
        no_newline (_data (snd (feed lib v response s))) = true).
Proof.
  intros v response.
  assert (Hnl : forall bs buf, no_newline buf = true -> no_newline (pending buf bs) = true).
  { induction bs as [|b bs IH]; intros buf Hb; [exact Hb|]. cbn [pending fold_left].
    apply IH. destruct (Byte.eqb b x0a) eqn:E; [reflexivity|].
    unfold no_newline. rewrite forallb_app. cbn. rewrite E. cbn.
    unfold no_newline in Hb. rewrite Hb. reflexivity. }
  assert (Hd : forall s, fst (feed lib v response s) = Ok tt ->
                         _data (snd (feed lib v response s)) = pending (_data s) response).
  { induction response as [|b rest IH]; intros s H; [reflexivity|].
    cbn [feed] in *. unfold bind at 1 in H. unfold bind at 1.
    unfold update in *. unfold bind at 1 in H. unfold bind at 1.
    cbn [pending fold_left].
    destruct (Byte.eqb b x0a) eqn:E.
    - unfold bind at 1 in H. unfold bind at 1. unfold read in *.
      cbn [_data set_data] in *.
      destruct (bytes_decode lib (_data s ++ [b])) as [text|]; [|discriminate H].
      unfold bind at 1 in H. unfold bind at 1.
      pose proof (process_line_keeps_buffer v (str_strip lib text)
                    (set_data [] (set_data (_data s ++ [b]) s))) as Hk.
      destruct (_process_line lib v (str_strip lib text)
                  (set_data [] (set_data (_data s ++ [b]) s))) as [[u|e] s3];
        [|discriminate H].
      cbn [snd _data set_data] in Hk. rewrite (IH s3 H), Hk. reflexivity.
    - unfold ret in *. rewrite (IH _ H). reflexivity. }
  intros s H. split; [apply Hd, H|]. intros Hb. rewrite (Hd s H). apply Hnl, Hb.
Qed.

End Conversations.

(** * More of the client: what every conversation keeps *)

Definition is_socket_created (e : event) : bool :=
  match e with EvSocket => true | _ => false end.

(** The number of sockets created. *)
Definition created (t : list event) : nat := length (filter is_socket_created t).

(** No [sendall] follows the first [recv]. *)
Fixpoint no_send_after_recv (t : list event) : bool :=
  match t with
  | [] => true
  | e :: t' =>
      if is_recv e then match sends t' with [] => true | _ => false end
      else no_send_after_recv t'
  end.

(** No handler is entered after the first write of the stop flag. *)
Fixpoint no_dispatch_after_stop (t : list event) : bool :=
  match t with
  | [] => true
  | e :: t' =>
      if is_stop e then negb (existsb dispatches t') else no_dispatch_after_stop t'
  end.

(** A read with no newline but, possibly, its last byte. *)
Definition single_line (ev : recv_event) : bool :=
  match ev with
  | RecvBytes bs => no_newline (removelast bs)
  | RecvRaise _ => true
  end.

Lemma created_app : forall a b, created (a ++ b) = created a + created b.
Proof. intros a b. unfold created. rewrite filter_app, length_app. reflexivity. Qed.

Lemma created_close_events : forall sk, created (close_events sk) = 0.
Proof. intros [[[e|]]|]; reflexivity. Qed.

Lemma no_send_after_recv_app :
  forall a b, reads a = 0 -> sends b = [] -> no_send_after_recv (a ++ b) = true.
Proof.
  induction a as [|e a IH]; intros b Ha Hb; cbn.
  - induction b as [|e b IHb]; [reflexivity|]. cbn.
    destruct e; cbn in *; try discriminate Hb; try (apply IHb; exact Hb).
    rewrite Hb. reflexivity.
  - unfold reads in Ha. cbn in Ha. destruct (is_recv e); [discriminate Ha|].
    apply IH; assumption.
Qed.

Section Invariants.

Variable lib : pylib.

(** X18.  Every socket a conversation creates is closed exactly once by the
    time the conversation ends: one socket and one close when the socket
    could be created, none of either otherwise, and the instance holds no
    socket at the end. *)
Theorem every_socket_is_closed_once :
  forall (p : params) (net : network),
    let s := snd (run lib p net new_client) in
    created (trace s) = match socket_raises net with None => 1 | Some _ => 0 end
    /\ closes (trace s) = created (trace s)
    /\ _socket s = None.
Proof.
  intros p net. cbv zeta.
  pose (c := match socket_raises net with None => 1 | Some _ => 0 end).
  assert (H : budget (snd (run lib p net new_client)) = c
              /\ created (trace (snd (run lib p net new_client))) = c).
  { apply (run_establishes lib (fun s => budget s = c /\ created (trace s) = c))
      with (Q := fun s => s = new_client).
    - intros e s He [H1 H2]. split.
      + rewrite budget_emit; [exact H1|]. destruct e; try discriminate He; reflexivity.
      + cbn [trace emit after_disconnect]. rewrite created_app, H2. destruct e; try discriminate He; cbn; lia.
    - intros x s H. exact H.
    - intros x s H. exact H.
    - intros x s H. exact H.
    - intros s [H1 H2]. split.
      + rewrite budget_after_disconnect. exact H1.
      + cbn [trace emit after_disconnect]. rewrite created_app, H2.
        change (EvStop :: close_events (_socket s))
          with ([EvStop] ++ close_events (_socket s)).
        rewrite created_app, created_close_events. cbn. lia.
    - intros s _ [H1 H2]. split.
      + rewrite budget_emit; [exact H1 | reflexivity].
      + cbn [trace emit after_disconnect]. rewrite created_app, H2. cbn. lia.
    - intros payload s [H1 H2]. split.
      + rewrite budget_emit; [exact H1 | reflexivity].
      + cbn [trace emit after_disconnect]. rewrite created_app, H2. cbn. lia.
    - intros s Hs. subst s. unfold c, _connect. unfold_monad.
      destruct (socket_raises net); cbn; [split; reflexivity|].
      destruct (timeout p <? 0)%Z; cbn; [split; reflexivity|].
      destruct (connect_raises net); cbn; split; reflexivity.
    - reflexivity. }
  destruct H as [Hb Hc]. fold c.
  destruct (run_eq lib p net new_client) as [s' Hrun].
  rewrite Hrun in *. cbn [snd] in *.
  split; [exact Hc|]. split; [|reflexivity].
  rewrite Hc, <- Hb. unfold budget. cbn. lia.
Qed.

(** The events of the receiving side send nothing. *)
Lemma receive_loop_adds_no_send :
  forall v script s,
    exists ext,
      trace (snd (receive_loop lib v script s)) = trace s ++ ext /\ sends ext = [].
Proof.
  intros v script s.
  apply (keeps_receive_loop lib
           (fun s' => exists ext, trace s' = trace s ++ ext /\ sends ext = [])).
  - intros e s' He [ext [H1 H2]]. exists (ext ++ [e]). cbn.
    rewrite H1, <- app_assoc, sends_app, H2. split; [reflexivity|].
    destruct e; try discriminate He; reflexivity.
  - intros x s' H. exact H.
  - intros x s' H. exact H.
  - intros x s' H. exact H.
  - intros s' [ext [H1 H2]]. exists (ext ++ EvStop :: close_events (_socket s')).
    cbn. rewrite H1, <- app_assoc, sends_app, H2. split; [reflexivity|].
    cbn. apply sends_close_events.
  - intros s' _ [ext [H1 H2]]. exists (ext ++ [EvRecv]). cbn.
    rewrite H1, <- app_assoc, sends_app, H2. split; reflexivity.
  - exists []. rewrite app_nil_r. split; reflexivity.
Qed.

(** The [try] body of [run] either fails before any read or gets to the
    receive loop with the request sent. *)
Lemma body_cases :
  forall p net,
    (exists e s1,
       body lib p net new_client = (Raise e, s1)
       /\ (existsb is_stop (trace s1) = false /\ reads (trace s1) = 0)
       /\ existsb dispatches (trace s1) = false)
    \/ (exists d, body lib p net new_client
                  = receive_loop lib (cmd p) (inbound net) (ready lib p net d)).
Proof.
  intros p net.
  destruct (socket_raises net) as [e|] eqn:Hs.
  { left. exists e, (emit (EvDebug (LogConnecting (host p) (port p))) new_client).
    unfold body, bind, _connect. unfold_monad. rewrite Hs. repeat split. }
  destruct (timeout p <? 0)%Z eqn:Ht.
  { left. exists (ValueError "Timeout value out of range"), (opened p net).
    unfold body, bind, _connect. unfold_monad. rewrite Hs, Ht. repeat split. }
  destruct (connect_raises net) as [e|] eqn:Hc.
  { left. exists e, (linked p net). unfold body. unfold bind at 1.
    rewrite (connect_eq p net Hs Ht), Hc. repeat split. }
  destruct (to_dict (cmd p)) as [d|e] eqn:Hd.
  2:{ left. exists e, (linked p net). unfold body. unfold bind at 1.
      rewrite (connect_eq p net Hs Ht), Hc. unfold bind at 1.
      rewrite send_request_eq, Hd. repeat split. }
  destruct (sendall_raises net) as [e|] eqn:Hsend.
  { left. exists e, (ready lib p net d). unfold body. unfold bind at 1.
    rewrite (connect_eq p net Hs Ht), Hc. unfold bind at 1.
    rewrite send_request_eq, Hd, Hsend. repeat split. }
  right. exists d. apply body_ready; assumption.
Qed.

(** X19.  A conversation is one request and then a stream of answers: in its
    trace no [sendall] follows a [recv], whatever the server sends and
    whichever call fails. *)
Theorem request_precedes_every_read :
  forall (p : params) (net : network),
    no_send_after_recv (trace (snd (run lib p net new_client))) = true.
Proof.
  intros p net. rewrite run_conclude.
  destruct (body_cases p net) as [(e & s1 & E & [_ Hr] & _) | (d & E)]; rewrite E.
  - unfold conclude. cbn [fst snd trace after_disconnect set_error].
    apply no_send_after_recv_app; [exact Hr|]. cbn. apply sends_close_events.
  - destruct (receive_loop_adds_no_send (cmd p) (inbound net) (ready lib p net d))
      as [ext [H1 H2]].
    unfold conclude.
    destruct (receive_loop lib (cmd p) (inbound net) (ready lib p net d))
      as [[u|e] s1]; cbn [fst snd trace after_disconnect set_error] in *;
      rewrite H1, <- app_assoc;
      (apply no_send_after_recv_app; [reflexivity|]);
      rewrite sends_app, H2; cbn; apply sends_close_events.
Qed.

(** ** One line per read *)

(** [m] enters no handler, and the stop flag is set after it exactly when it
    was set before or [m] wrote it. *)
Definition calm {A} (m : M A) : Prop :=
  forall s,
    exists ext,
      trace (snd (m s)) = trace s ++ ext
      /\ existsb dispatches ext = false
      /\ _event_stop (snd (m s)) = (existsb is_stop ext || _event_stop s).

(** The same, but [m] may enter handlers before it writes the stop flag. *)
Definition orderly {A} (m : M A) : Prop :=
  forall s,
    exists ext,
      trace (snd (m s)) = trace s ++ ext
      /\ no_dispatch_after_stop ext = true
      /\ _event_stop (snd (m s)) = (existsb is_stop ext || _event_stop s).

(** What the receive loop keeps between two reads. *)
Definition settled (s : client) : Prop :=
  no_dispatch_after_stop (trace s) = true
  /\ (existsb is_stop (trace s) = true -> _event_stop s = true).

Lemma no_dispatch_after_stop_app :
  forall a b,
    no_dispatch_after_stop (a ++ b) =
      if existsb is_stop a
      then no_dispatch_after_stop a && negb (existsb dispatches b)
      else no_dispatch_after_stop b.
Proof.
  induction a as [|e a IH]; intros b; cbn; [reflexivity|].
  destruct (is_stop e); cbn.
  - rewrite existsb_app, negb_orb. reflexivity.
  - apply IH.
Qed.

Lemma no_dispatch_is_orderly :
  forall t, existsb dispatches t = false -> no_dispatch_after_stop t = true.
Proof.
  induction t as [|e t IH]; intros H; cbn in *; [reflexivity|].
  apply orb_false_iff in H. destruct H as [_ H].
  destruct (is_stop e); [rewrite H; reflexivity | apply IH, H].
Qed.

Lemma dispatches_close_events :
  forall sk, existsb dispatches (close_events sk) = false.
Proof. intros [[[e|]]|]; reflexivity. Qed.

Lemma calm_ret : forall {A} (a : A), calm (ret a).
Proof. intros A a s. exists []. cbn. rewrite app_nil_r. repeat split. Qed.

Lemma calm_raise : forall {A} e, calm (@raise A e).
Proof. intros A e s. exists []. cbn. rewrite app_nil_r. repeat split. Qed.

Lemma calm_lift : forall {A} (r : res A), calm (lift r).
Proof. intros A r s. exists []. cbn. rewrite app_nil_r. repeat split. Qed.

Lemma calm_write :
  forall f : client -> client,
    (forall s, trace (f s) = trace s) ->
    (forall s, _event_stop (f s) = _event_stop s) ->
    calm (update f).
Proof.
  intros f Ht Hs s. exists []. cbn. rewrite app_nil_r, Ht, Hs. repeat split.
Qed.

Lemma calm_note :
  forall e, dispatches e = false -> is_stop e = false -> calm (update (emit e)).
Proof.
  intros e Hd Hs s. exists [e]. cbn. rewrite Hd, Hs. repeat split.
Qed.

Lemma calm_disconnect : calm disconnect.
Proof.
  intros s. exists (EvStop :: close_events (_socket s)). rewrite disconnect_eq.
  cbn. rewrite dispatches_close_events. repeat split.
Qed.

Lemma calm_bind :
  forall {A B} (m : M A) (k : A -> M B),
    calm m -> (forall a, calm (k a)) -> calm (bind m k).
Proof.
  intros A B m k Hm Hk s. unfold bind.
  destruct (Hm s) as (ext & Ht & Hd & Hs).
  destruct (m s) as [[a|e] s1]; cbn [snd] in *.
  - destruct (Hk a s1) as (ext2 & Ht2 & Hd2 & Hs2).
    exists (ext ++ ext2). rewrite Ht2, Ht, Hs2, Hs, !existsb_app, Hd, Hd2, <- app_assoc.
    repeat split.
    destruct (existsb is_stop ext), (existsb is_stop ext2); reflexivity.
  - exists ext. repeat split; assumption.
Qed.

Lemma calm_is_orderly : forall {A} (m : M A), calm m -> orderly m.
Proof.
  intros A m Hm s. destruct (Hm s) as (ext & Ht & Hd & Hs).
  exists ext. repeat split; try assumption. apply no_dispatch_is_orderly, Hd.
Qed.

(** A handler: its entry, then steps that enter no handler. *)
Lemma orderly_entry :
  forall {A} e (k : M A),
    is_stop e = false -> calm k -> orderly (bind (update (emit e)) (fun _ => k)).
Proof.
  intros A e k He Hk s. unfold bind, update.
  destruct (Hk (emit e s)) as (ext & Ht & Hd & Hs).
  exists (e :: ext). rewrite Ht, Hs. cbn. rewrite He, <- app_assoc.
  repeat split. apply no_dispatch_is_orderly, Hd.
Qed.

Ltac calm_step :=
  first
    [ apply calm_ret | apply calm_raise | apply calm_lift | apply calm_disconnect
    | apply calm_note; reflexivity
    | apply calm_write; reflexivity
    | match goal with
      | |- calm (if ?b then _ else _) => destruct b
      | |- calm (match ?x with _ => _ end) => destruct x
      end
    | apply calm_bind; [|intro] ].
Ltac calmly := repeat calm_step.

Lemma calm_permission_loop : forall perms, calm (permission_loop lib perms).
Proof.
  induction perms as [|perm rest IH]; cbn [permission_loop].
  - apply calm_ret.
  - apply calm_bind; [|intro; exact IH]. unfold permission_step. calmly.
Qed.

Lemma orderly_handle_response :
  forall v data, orderly (_handle_response lib v data).
Proof.
  intros v data s. unfold _handle_response. unfold bind at 1. unfold lift.
  destruct (py_in "error" data) as [[|]|e].
  - unfold bind at 1.
    destruct (py_getitem data "error") as [msg|e];
      [|exact (calm_is_orderly _ (calm_raise e) s)].
    apply orderly_entry; [reflexivity | calmly].
  - unfold bind at 1. destruct (py_in "permissions" data) as [[|]|e].
    + unfold bind at 1.
      destruct (py_getitem data "permissions") as [perms|e];
        [|exact (calm_is_orderly _ (calm_raise e) s)].
      apply orderly_entry; [reflexivity|].
      apply calm_bind; [apply calm_lift | intro; apply calm_permission_loop].
    + apply orderly_entry; [reflexivity|]. calmly.
    + exact (calm_is_orderly _ (calm_raise e) s).
  - exact (calm_is_orderly _ (calm_raise e) s).
Qed.

Lemma orderly_process_line :
  forall v line, orderly (_process_line lib v line).
Proof.
  intros v line. unfold _process_line.
  destruct (json_loads lib line); [apply orderly_handle_response|].
  apply calm_is_orderly. calmly.
Qed.

Lemma settled_orderly :
  forall {A} (m : M A) s,
    orderly m -> _event_stop s = false -> settled s -> settled (snd (m s)).
Proof.
  intros A m s Hm Hstop [H1 H2]. destruct (Hm s) as (ext & Ht & Hd & Hs).
  assert (Hno : existsb is_stop (trace s) = false).
  { destruct (existsb is_stop (trace s)); [|reflexivity].
    rewrite H2 in Hstop by reflexivity. discriminate Hstop. }
  unfold settled. rewrite Ht, Hs, Hstop, no_dispatch_after_stop_app, existsb_app, Hno.
  cbn. rewrite orb_false_r. split; [exact Hd | intro H; exact H].
Qed.

Lemma settled_same :
  forall s s',
    trace s' = trace s -> _event_stop s' = _event_stop s -> settled s -> settled s'.
Proof. intros s s' Ht Hs [H1 H2]. unfold settled. rewrite Ht, Hs. split; assumption. Qed.

Lemma settled_feed :
  forall v response s,
    no_newline (removelast response) = true ->
    _event_stop s = false ->
    settled s ->
    settled (snd (feed lib v response s)).
Proof.
  intros v response s Hnl Hstop Hset.
  destruct response as [|b0 rest0]; [exact Hset|].
  rewrite (app_removelast_last b0 (l := b0 :: rest0)) by discriminate.
  set (raw := removelast (b0 :: rest0)) in *.
  set (b := last (b0 :: rest0) b0).
  rewrite feed_app. unfold bind at 1. rewrite feed_no_newline by exact Hnl.
  cbn [feed]. unfold bind at 1. unfold update. unfold bind at 1.
  destruct (Byte.eqb b x0a).
  - unfold bind at 1. unfold read. cbn [_data set_data].
    destruct (bytes_decode lib ((_data s ++ raw) ++ [b])) as [text|];
      [|exact Hset].
    unfold bind at 1.
    pose proof (settled_orderly (_process_line lib v (str_strip lib text))
                  (set_data [] (set_data ((_data s ++ raw) ++ [b])
                                  (set_data (_data s ++ raw) s)))
                  (orderly_process_line v (str_strip lib text)) Hstop Hset) as H.
    destruct (_process_line lib v (str_strip lib text) _) as [[u|e] s3]; exact H.
  - exact Hset.
Qed.

Lemma settled_recv : forall s, settled s -> settled (emit EvRecv s).
Proof.
  intros s [H1 H2]. unfold settled. cbn [trace emit _event_stop].
  rewrite no_dispatch_after_stop_app, existsb_app. cbn. rewrite H1, orb_false_r.
  split; [destruct (existsb is_stop (trace s)); reflexivity | exact H2].
Qed.

Lemma settled_receive_loop :
  forall v script s,
    forallb single_line script = true ->
    settled s ->
    settled (snd (receive_loop lib v script s)).
Proof.
  intros v script. induction script as [|ev rest IH]; intros s Hsingle Hset;
    cbn [receive_loop]; destruct (_event_stop s) eqn:Hstop; try exact Hset;
    (destruct (_socket s) as [k|]; [|exact Hset]).
  - apply settled_recv, Hset.
  - cbn [forallb] in Hsingle. apply andb_true_iff in Hsingle.
    destruct Hsingle as [Hev Hrest]. destruct ev as [bs|e].
    + destruct bs as [|b bs]; [apply settled_recv, Hset|].
      pose proof (settled_feed v (b :: bs) (emit EvRecv s) Hev Hstop
                    (settled_recv s Hset)) as H.
      destruct (feed lib v (b :: bs) (emit EvRecv s)) as [[u|e] s1]; cbn [snd] in H.
      * apply IH; assumption.
      * destruct (is_socket_timeout e); exact H.
    + destruct (is_socket_timeout e); apply settled_recv, Hset.
Qed.

(** X20.  When every read holds at most one line and ends with it, no
    handler is entered after the stop flag was first written: the line on
    which a handler disconnects is the last one dispatched, so the first
    accepted data line, the first remote error or the first denied permission
    list ends the dispatching. *)
Theorem one_line_per_read_stops_at_disconnect :
  forall (p : params) (net : network),
    forallb single_line (inbound net) = true ->
    no_dispatch_after_stop (trace (snd (run lib p net new_client))) = true.
Proof.
  intros p net Hsingle. rewrite run_conclude.
  assert (Hend : forall s, settled s ->
                   no_dispatch_after_stop (trace (after_disconnect s)) = true).
  { intros s [H1 H2]. cbn [trace after_disconnect].
    rewrite no_dispatch_after_stop_app. cbn.
    rewrite dispatches_close_events, H1.
    destruct (existsb is_stop (trace s)); reflexivity. }
  unfold conclude. cbn [snd]. apply Hend.
  assert (Hbody : settled (snd (body lib p net new_client))).
  { destruct (body_cases p net) as [(e & s1 & E & Hr & Hq) | (d & E)]; rewrite E.
    - cbn [snd]. split; [apply no_dispatch_is_orderly, Hq|].
      intro H. rewrite (proj1 Hr) in H. discriminate H.
    - apply settled_receive_loop; [exact Hsingle|]. split; [reflexivity | discriminate]. }
  destruct (fst (body lib p net new_client)); [exact Hbody|].
  exact (settled_same _ _ eq_refl eq_refl Hbody).
Qed.

End Invariants.

(** * plugins/android.py: the Termux service calls of AndroidApi *)

Section AndroidApi.

Variable lib : pylib.

(** [str(e)] of the JSONDecodeError that [json.loads] raises on a text. *)
Variable decode_error_str : string -> string.

(** [v.get(k, default)] *)
Definition py_get (v : json) (k : string) (default : json) : res json :=
  match v with
  | JObj members =>
      Ok match dict_get k members with
         | Some x => x
         | None => default
         end
  | _ => Raise (AttributeError "object has no attribute get")
  end.

(** [startService], from the text that the remote call returned: the
    returned pair or the exception, and the [_port] attribute afterwards. *)
Definition startService (jsonStr : string) (_port : json)
  : res (json * json) * json :=
  match json_loads lib jsonStr with
  | None =>
      (Ok (JBool false, JStr ("JSON解析错误: " ++ decode_error_str jsonStr)), _port)
  | Some jsonObj =>
      match py_get jsonObj "port" (JNum "0") with
      | Raise e => (Raise e, _port)
      | Ok port' =>
          match py_getitem jsonObj "success" with
          | Raise e => (Raise e, port')
          | Ok success =>
              match py_get jsonObj "error" (JStr "") with
              | Raise e => (Raise e, port')
              | Ok error => (Ok (success, error), port')
              end
          end
      end
  end.

(** [stopService], from the text that the remote call returned. *)
Definition stopService (jsonStr : string) : res json :=
  match json_loads lib jsonStr with
  | None => Ok (JBool false)
  | Some jsonObj => py_getitem jsonObj "success"
  end.

(** X21.  [startService] on the reply of the remote call: a reply that is not
    JSON gives False and a message and leaves the port alone; an object
    with the key success gives its value and the value of error or the empty
    string, and sets the port to the value of port or to 0, so a
    reply without port resets the port; an object without the key success
    raises KeyError after the port was overwritten; any other JSON value
    raises before the port is touched. *)
Theorem start_service_outcome :
  forall (jsonStr : string) (port0 : json),
    (json_loads lib jsonStr = None ->
     exists msg, startService jsonStr port0 = (Ok (JBool false, JStr msg), port0))
    /\ (forall members success,
          json_loads lib jsonStr = Some (JObj members) ->
          dict_get "success" members = Some success ->
          startService jsonStr port0 =
            (Ok (success,
                 match dict_get "error" members with Some x => x | None => JStr "" end),
             match dict_get "port" members with Some x => x | None => JNum "0" end))
    /\ (forall members,
          json_loads lib jsonStr = Some (JObj members) ->
          dict_get "success" members = None ->
          startService jsonStr port0 =
            (Raise (KeyError "success"),
             match dict_get "port" members with Some x => x | None => JNum "0" end))
    /\ (forall data,
          json_loads lib jsonStr = Some data ->
          (forall members, data <> JObj members) ->
          exists msg, startService jsonStr port0 = (Raise (AttributeError msg), port0)).
Proof.
  intros jsonStr port0. unfold startService. repeat split.
  - intros H. rewrite H. eexists. reflexivity.
  - intros members success H Hs. rewrite H. cbn. rewrite Hs. reflexivity.
  - intros members H Hs. rewrite H. cbn. rewrite Hs. reflexivity.
  - intros data H Hd. rewrite H.
    destruct data; try (eexists; reflexivity). elim (Hd members). reflexivity.
Qed.

(** X22.  [stopService] returns what [startService] returns first for the
    same reply, whenever [startService] returns: False for a reply that is
    not JSON, the value of success for an object that has it. *)
Theorem stop_service_agrees_with_start_service :
  forall (jsonStr : string) (port0 : json) (success error : json) (port1 : json),
    startService jsonStr port0 = (Ok (success, error), port1) ->
    stopService jsonStr = Ok success.
Proof.
  intros jsonStr port0 success error port1. unfold startService, stopService.
  destruct (json_loads lib jsonStr) as [data|].
  - destruct (py_get data "port" (JNum "0")) as [port'|e]; [|discriminate].
    destruct (py_getitem data "success") as [x|e]; [|discriminate].
    destruct (py_get data "error" (JStr "")) as [y|e]; [|discriminate].
    intros H. inversion H. reflexivity.
  - intros H. inversion H. reflexivity.
Qed.

End AndroidApi.

(** * More evaluations *)

Module Cases.

(** The request of the default location command. *)
Definition request : json :=
  JObj [("extras", JObj [("api_method", JStr "Location");
                         ("provider", JStr "network");
                         ("request", JStr "once")])].

Definition refusing : network :=
  {| socket_raises := None; connect_raises := Some ConnectionRefusedError;
     sendall_raises := None; inbound := []; close_raises := None |}.

Definition out_of_sockets : network :=
  {| socket_raises := Some (OSError "Too many open files"); connect_raises := None;
     sendall_raises := None; inbound := []; close_raises := None |}.

Definition stalling : network :=
  {| socket_raises := None; connect_raises := None;
     sendall_raises := Some socket_timeout; inbound := []; close_raises := None |}.

Definition silent : network :=
  {| socket_raises := None; connect_raises := None; sendall_raises := None;
     inbound := [RecvRaise socket_timeout]; close_raises := None |}.

Definition hasty : params :=
  {| host := "localhost"; port := 80; timeout := -1;
     cmd := TermuxLocationCommand "network" "once" |}.

Definition base : params :=
  {| host := "localhost"; port := 80; timeout := DEFAULT_TIMEOUT;
     cmd := TermuxRpcClient |}.

Definition status_line : string := "{'status':'searching'}".
Definition status : json := JObj [("status", JStr "searching")].

Definition denied_record : json :=
  JObj [("permission", JStr "ACCESS_FINE_LOCATION"); ("granted", JBool false)].
Definition granted_record : json :=
  JObj [("permission", JStr "READ_SMS"); ("granted", JBool true)].
Definition incomplete_record : json := JObj [("permission", JStr "CAMERA")].

(** A location line whose value holds one character of two bytes, cut
    between the two. *)
Definition first_piece : list byte := bytes_of (js "{'latitude':'") ++ [xc3].
Definition second_piece : list byte := xa9 :: bytes_of (js "'}") ++ [x0a].

Definition error_text (text : string) : string := "Expecting value".

End Cases.

Import Cases.

Lemma served :
  forall reads, established location (server reads) request.
Proof. intros reads. repeat split. Qed.

(** X1, witness: a server that refuses the connection. *)
Lemma connect_failure_outcome_witness :
  _error (snd (run cpython_ascii location refusing new_client))
  = Some (JStr "Connection refused").
Proof.
  refine (proj1 (proj2 (proj2
    (connect_failure_outcome cpython_ascii location refusing
       ConnectionRefusedError _ _ _)))); reflexivity.
Defined.

(** X2, witness: a timeout of -1. *)
Lemma negative_timeout_never_connects_witness :
  trace (snd (run cpython_ascii hasty (server []) new_client))
  = [EvDebug (LogConnecting "localhost" 80); EvSocket; EvStop; EvClose].
Proof.
  refine (proj2 (proj2 (proj2
    (negative_timeout_never_connects cpython_ascii hasty (server []) _ _))));
    reflexivity.
Defined.

(** X3, witness: no socket can be created. *)
Lemma socket_failure_closes_nothing_witness :
  trace (snd (run cpython_ascii location out_of_sockets new_client))
  = [EvDebug (LogConnecting "localhost" 80); EvStop].
Proof.
  refine (proj2 (proj2 (proj2
    (socket_failure_closes_nothing cpython_ascii location out_of_sockets
       (OSError "Too many open files") _)))); reflexivity.
Defined.

(** X4, witness: the base class against a server that accepts. *)
Lemma base_class_connects_before_failing_witness :
  _error (snd (run cpython_ascii base (server []) new_client))
  = Some (JStr "Unexpected error: API_METHOD must be defined in subclass").
Proof.
  refine (proj1 (proj2 (proj2
    (base_class_connects_before_failing cpython_ascii base (server []) _ _ _ _))));
    reflexivity.
Defined.

(** X5, witness: [sendall] times out. *)
Lemma sendall_failure_outcome_witness :
  _error (snd (run cpython_ascii location stalling new_client))
  = Some (JStr "Connection timed out").
Proof.
  refine (proj1 (proj2 (proj2 (proj2
    (sendall_failure_outcome cpython_ascii location stalling request socket_timeout
       _ _ _ _ _)))) _); reflexivity.
Defined.

(** X6, witness: a location line that is never ended, in two reads. *)
Lemma unterminated_input_is_dropped_witness :
  outcome location (server [bytes_of (js "{'lat"); bytes_of (js "itude':1.0}")])
  = (None, None).
Proof.
  pose proof (unterminated_input_is_dropped cpython_ascii location
                (server [bytes_of (js "{'lat"); bytes_of (js "itude':1.0}")])
                request [bytes_of (js "{'lat"); bytes_of (js "itude':1.0}")]
                (served _) eq_refl eq_refl) as H.
  destruct H as (_ & Hr & He & _). unfold outcome, converse.
  rewrite Hr, He. reflexivity.
Defined.

(** X7, witness: one location line. *)
Lemma first_accepted_line_is_the_outcome_witness :
  outcome location (server [line fix_line; line second_fix_line])
  = (Some location_fix, None).
Proof.
  pose proof (first_accepted_line_is_the_outcome cpython_ascii location
                (server [line fix_line; line second_fix_line]) request
                (bytes_of (js fix_line)) (js fix_line ++ nl) location_fix
                [RecvBytes (line second_fix_line)]
                (served _) eq_refl eq_refl eq_refl eq_refl eq_refl eq_refl eq_refl)
    as H.
  destruct H as (_ & Hr & He & _). unfold outcome, converse.
  rewrite Hr, He. reflexivity.
Defined.

(** X8, witness: one error line. *)
Lemma remote_error_is_the_outcome_witness :
  outcome location (server [line error_line]) = (None, Some (JStr "denied")).
Proof.
  pose proof (remote_error_is_the_outcome cpython_ascii location
                (server [line error_line]) request
                (bytes_of (js error_line)) (js error_line ++ nl)
                (JObj [("error", JStr "denied")]) (JStr "denied") []
                (served _) eq_refl eq_refl eq_refl eq_refl eq_refl eq_refl)
    as H.
  destruct H as (_ & Hr & He & _). unfold outcome, converse.
  rewrite Hr, He. reflexivity.
Defined.

(** X9, witness: a server that sends nothing until the timeout. *)
Lemma receive_failure_outcome_witness :
  _error (snd (run cpython_ascii location silent new_client))
  = Some (JStr "Receive timed out").
Proof.
  refine (proj1 (proj2 (proj2
    (receive_failure_outcome cpython_ascii location silent request socket_timeout []
       _ _)))); repeat split.
Defined.

(** X10, witness: the line 5, then a location that is never read. *)
Lemma scalar_line_aborts_witness :
  _result (snd (run cpython_ascii location (server [line "5"; line fix_line])
                  new_client)) = None
  /\ reads (trace (snd (run cpython_ascii location
                          (server [line "5"; line fix_line]) new_client))) = 1.
Proof.
  pose proof (scalar_line_aborts cpython_ascii location
                (server [line "5"; line fix_line]) request
                (bytes_of "5") ("5" ++ nl) (JNum "5") [RecvBytes (line fix_line)]
                (served _) eq_refl eq_refl eq_refl eq_refl eq_refl)
    as H.
  destruct H as (_ & Hr & _ & Hn & _). split; [exact Hr | exact Hn].
Defined.

(** X11, witness: a line that is the one byte ff. *)
Lemma undecodable_line_aborts_witness :
  _data (snd (run cpython_ascii location (server [[xff; x0a]]) new_client))
  = [xff; x0a].
Proof.
  refine (proj1 (proj2 (proj2 (proj2
    (undecodable_line_aborts cpython_ascii location (server [[xff; x0a]]) request
       [xff] [] (served _) _ _ _))))); reflexivity.
Defined.

(** X12, witness: an object with an error and a location. *)
Lemma error_key_takes_precedence_witness :
  _handle_response cpython_ascii (cmd location)
    (JObj [("latitude", JNum "1.0"); ("error", JStr "denied")]) connected
  = _handle_error (JStr "denied") connected.
Proof.
  exact (proj1 (proj1
    (error_key_takes_precedence cpython_ascii (cmd location)
       [("latitude", JNum "1.0"); ("error", JStr "denied")]
       (JStr "denied") JNull connected) eq_refl)).
Defined.

(** X13, witness: a status line, then a location in the next read. *)
Lemma line_without_latitude_is_skipped_witness :
  receive_loop cpython_ascii (cmd location)
    [RecvBytes (line status_line); RecvBytes (line fix_line)] connected
  = receive_loop cpython_ascii (cmd location) [RecvBytes (line fix_line)]
      {| _socket := Some {| close_outcome := None |}; _data := [];
         _result := None; _error := None; _event_stop := false;
         trace := [EvRecv; EvHandleData status] |}.
Proof.
  exact (line_without_latitude_is_skipped cpython_ascii "network" "once"
           (bytes_of (js status_line)) (js status_line ++ nl) status
           [RecvBytes (line fix_line)] connected {| close_outcome := None |}
           eq_refl eq_refl eq_refl eq_refl eq_refl eq_refl eq_refl eq_refl).
Defined.

(** X14, witness: a list of one granted record. *)
Lemma granted_permissions_change_nothing_witness :
  attributes (snd (_handle_permissions cpython_ascii (JArr [granted_record]) connected))
  = attributes connected.
Proof.
  exact (proj1 (proj2
    (granted_permissions_change_nothing cpython_ascii [granted_record]
       [(JStr "READ_SMS", JBool true)] connected eq_refl eq_refl))).
Defined.

(** X15, witness: a denied record, a record without granted, a third record. *)
Lemma incomplete_permission_record_raises_witness :
  permission_visits
    (trace (snd (_handle_permissions cpython_ascii
                   (JArr [denied_record; incomplete_record; granted_record])
                   connected)))
  = [(JStr "ACCESS_FINE_LOCATION", JBool false)].
Proof.
  exact (proj1 (proj2
    (incomplete_permission_record_raises cpython_ascii [denied_record]
       [(JStr "ACCESS_FINE_LOCATION", JBool false)] incomplete_record
       [granted_record] connected eq_refl eq_refl))).
Defined.

(** X16, witness: a read cut inside a character of two bytes. *)
Lemma split_read_same_outcome_witness :
  attributes (snd (receive_loop cpython_ascii (cmd location)
                     [RecvBytes first_piece; RecvBytes second_piece] connected))
  = attributes (snd (receive_loop cpython_ascii (cmd location)
                       [RecvBytes (first_piece ++ second_piece)] connected)).
Proof.
  refine (proj1 (proj2
    (split_read_same_outcome cpython_ascii (cmd location) first_piece second_piece
       [] connected {| close_outcome := None |} eq_refl eq_refl _ _
       (or_introl eq_refl)))).
  - discriminate.
  - discriminate.
Defined.

(** X17, witness: a whole status line and the start of the next line. *)
Lemma buffer_holds_the_unfinished_line_witness :
  _data (snd (feed cpython_ascii (cmd location)
                (line status_line ++ bytes_of (js "{'lat")) connected))
  = bytes_of (js "{'lat").
Proof.
  exact (proj1
    (buffer_holds_the_unfinished_line cpython_ascii (cmd location)
       (line status_line ++ bytes_of (js "{'lat")) connected eq_refl)).
Defined.

(** X20, witness: a denied permission list and a location, one per read. *)
Lemma one_line_per_read_stops_at_disconnect_witness :
  no_dispatch_after_stop
    (trace (snd (run cpython_ascii location
                   (server [line denied_line; line fix_line]) new_client)))
  = true.
Proof.
  exact (one_line_per_read_stops_at_disconnect cpython_ascii location
           (server [line denied_line; line fix_line]) eq_refl).
Defined.

(** X21, witness: a reply without port, on an instance that had one. *)
Lemma start_service_outcome_witness :
  startService cpython_ascii error_text (js "{'success':true}") (JNum "8080")
  = (Ok (JBool true, JStr ""), JNum "0").
Proof.
  exact (proj1 (proj2
    (start_service_outcome cpython_ascii error_text (js "{'success':true}")
       (JNum "8080")))
    [("success", JBool true)] (JBool true) eq_refl eq_refl).
Defined.

(** X22, witness: the same reply. *)
Lemma stop_service_agrees_with_start_service_witness :
  stopService cpython_ascii (js "{'success':true}") = Ok (JBool true).
Proof.
  exact (stop_service_agrees_with_start_service cpython_ascii error_text
           (js "{'success':true}") (JNum "8080") (JBool true) (JStr "") (JNum "0")
           eq_refl).
Defined.

(** * A line that is not JSON, and the line after it *)


Section Recovery.

Variable lib : pylib.




End Recovery.


(** * Calls of disconnect that overlap

    [execute] calls [disconnect] from the caller's thread while the worker may
    be inside its own [disconnect]; nothing in the class locks.  The four
    accesses of [disconnect] to the instance are the steps of a call here,
    and a schedule says which call takes the next step. *)

(** Where a call of [disconnect] stands: before the write of the stop flag,
    before the test of the socket, before the call of [close], before the
    write of [None], or returned. *)
Inductive place : Type :=
| AtStop
| AtTest
| AtClose
| AtClear
| Returned.

(** The instance the calls share, and whether its socket object was closed
    already: closing such an object again does nothing and raises nothing. *)
Record shared : Type := { instance : client; closed : bool }.

Definition fresh (s : client) : shared := {| instance := s; closed := false |}.

(** One step of a call.  At [AtClose] the attribute is read again: a socket
    is closed, also when another call closed it in between; [None] has no
    [close], and the AttributeError is caught and logged like any error of
    [close]. *)
Definition advance (pl : place) (w : shared) : place * shared :=
  let s := instance w in
  match pl with
  | AtStop =>
      (AtTest,
       {| instance := set_event_stop true (emit EvStop s); closed := closed w |})
  | AtTest =>
      (match _socket s with Some _ => AtClose | None => Returned end, w)
  | AtClose =>
      match _socket s with
      | Some k =>
          (AtClear,
           {| instance :=
                match (if closed w then None else close_outcome k) with
                | Some e => emit (EvDebug (LogCloseError e)) (emit EvClose s)
                | None => emit EvClose s
                end;
              closed := true |})
      | None =>
          (AtClear,
           {| instance :=
                emit (EvDebug (LogCloseError
                                 (AttributeError "NoneType object has no attribute close")))
                  s;
              closed := closed w |})
      end
  | AtClear => (Returned, {| instance := set_socket None s; closed := closed w |})
  | Returned => (Returned, w)
  end.

Fixpoint put (i : nat) (pl : place) (calls : list place) : list place :=
  match calls, i with
  | [], _ => []
  | _ :: rest, O => pl :: rest
  | x :: rest, S i' => x :: put i' pl rest
  end.

(** The calls after the steps of a schedule; a step of a call that does not
    exist is skipped. *)
Fixpoint interleave (schedule : list nat) (calls : list place) (w : shared)
  : list place * shared :=
  match schedule with
  | [] => (calls, w)
  | i :: rest =>
      match nth_error calls i with
      | Some pl =>
          let (pl', w') := advance pl w in
          interleave rest (put i pl' calls) w'
      | None => interleave rest calls w
      end
  end.

(** A call that may still call [close]. *)
Definition owing (pl : place) : nat :=
  match pl with
  | AtStop | AtTest | AtClose => 1
  | AtClear | Returned => 0
  end.

Fixpoint owed (calls : list place) : nat :=
  match calls with
  | [] => 0
  | pl :: rest => owing pl + owed rest
  end.

Definition has_started (pl : place) : bool :=
  match pl with AtStop => false | _ => true end.

Definition has_returned (pl : place) : bool :=
  match pl with Returned => true | _ => false end.

(** C9 as it is written, for calls that may overlap: however the calls are
    scheduled, the socket is closed at most once. *)
Definition closes_at_most_once : Prop :=
  forall (schedule : list nat) (calls : nat) (s : client),
    closes (trace (instance (snd (interleave schedule (repeat AtStop calls) (fresh s)))))
    <= closes (trace s) + 1.

Lemma advance_closes :
  forall pl w,
    closes (trace (instance (snd (advance pl w)))) + owing (fst (advance pl w))
    <= closes (trace (instance w)) + owing pl.
Proof.
  intros pl [s c]. destruct pl; cbn -[closes].
  - rewrite closes_app. cbn. lia.
  - destruct (_socket s); cbn -[closes]; lia.
  - destruct (_socket s) as [k|]; cbn -[closes].
    + destruct (if c then None else close_outcome k); cbn -[closes];
        rewrite !closes_app; cbn; lia.
    + rewrite closes_app. cbn. lia.
  - lia.
  - lia.
Qed.

Lemma owed_put :
  forall calls i pl pl',
    nth_error calls i = Some pl ->
    owed (put i pl' calls) + owing pl = owed calls + owing pl'.
Proof.
  induction calls as [|x rest IH]; intros i pl pl' H.
  - destruct i; discriminate H.
  - destruct i as [|i]; cbn [put nth_error owed] in *.
    + inversion H. subst. lia.
    + specialize (IH i pl pl' H). lia.
Qed.

Lemma interleave_closes :
  forall schedule calls w,
    closes (trace (instance (snd (interleave schedule calls w))))
    + owed (fst (interleave schedule calls w))
    <= closes (trace (instance w)) + owed calls.
Proof.
  induction schedule as [|i rest IH]; intros calls w; cbn [interleave].
  - cbn. lia.
  - destruct (nth_error calls i) as [pl|] eqn:Hn; [|apply IH].
    pose proof (advance_closes pl w) as Ha.
    destruct (advance pl w) as [pl' w']. cbn [fst snd] in Ha.
    pose proof (owed_put calls i pl pl' Hn) as Hp.
    specialize (IH (put i pl' calls) w'). lia.
Qed.

Lemma owed_repeat : forall n, owed (repeat AtStop n) = n.
Proof. induction n as [|n IH]; cbn; [reflexivity | rewrite IH; reflexivity]. Qed.

Lemma put_forallb :
  forall f calls i pl pl',
    nth_error calls i = Some pl ->
    forallb f (put i pl' calls) = true ->
    f pl' = true /\ (f pl = true -> forallb f calls = true).
Proof.
  intros f. induction calls as [|x rest IH]; intros i pl pl' H Hall.
  - destruct i; discriminate H.
  - destruct i as [|i]; cbn in *.
    + inversion H. subst. apply andb_true_iff in Hall. destruct Hall as [H1 H2].
      split; [exact H1|]. intros Hf. rewrite Hf, H2. reflexivity.
    + apply andb_true_iff in Hall. destruct Hall as [H1 H2].
      destruct (IH i pl pl' H H2) as [Ha Hb]. split; [exact Ha|].
      intros Hf. rewrite H1, (Hb Hf). reflexivity.
Qed.

Lemma nth_error_existsb :
  forall f (calls : list place) i pl,
    nth_error calls i = Some pl -> f pl = true -> existsb f calls = true.
Proof.
  intros f calls i pl H Hf. apply existsb_exists. exists pl.
  split; [exact (nth_error_In calls i H) | exact Hf].
Qed.

Lemma advance_keeps_stop :
  forall pl w,
    _event_stop (instance w) = true ->
    _event_stop (instance (snd (advance pl w))) = true.
Proof.
  intros pl [s c] H. destruct pl; cbn in *; try exact H; try reflexivity.
  destruct (_socket s) as [k|]; cbn; [|exact H].
  destruct (if c then None else close_outcome k); exact H.
Qed.

(** Once a call is past its first step the stop flag is set, and once all
    calls returned the instance holds no socket. *)
Lemma interleave_settles :
  forall schedule calls w,
    (existsb has_started calls = true -> _event_stop (instance w) = true) ->
    (forallb has_returned calls = true -> _socket (instance w) = None) ->
    let r := interleave schedule calls w in
    (existsb has_started (fst r) = true -> _event_stop (instance (snd r)) = true)
    /\ (forallb has_returned (fst r) = true -> _socket (instance (snd r)) = None).
Proof.
  induction schedule as [|i rest IH]; intros calls w H1 H2; cbn [interleave].
  - split; assumption.
  - destruct (nth_error calls i) as [pl|] eqn:Hn; [|apply IH; assumption].
    destruct (advance pl w) as [pl' w'] eqn:Ha. apply IH.
    + intros _. destruct pl.
      * cbn in Ha. inversion Ha. reflexivity.
      * pose proof (advance_keeps_stop AtTest w
                      (H1 (nth_error_existsb _ _ _ _ Hn eq_refl))) as Hk.
        rewrite Ha in Hk. exact Hk.
      * pose proof (advance_keeps_stop AtClose w
                      (H1 (nth_error_existsb _ _ _ _ Hn eq_refl))) as Hk.
        rewrite Ha in Hk. exact Hk.
      * pose proof (advance_keeps_stop AtClear w
                      (H1 (nth_error_existsb _ _ _ _ Hn eq_refl))) as Hk.
        rewrite Ha in Hk. exact Hk.
      * pose proof (advance_keeps_stop Returned w
                      (H1 (nth_error_existsb _ _ _ _ Hn eq_refl))) as Hk.
        rewrite Ha in Hk. exact Hk.
    + intros Hall. destruct (put_forallb has_returned calls i pl pl' Hn Hall)
        as [Hret Hback].
      destruct pl; cbn in Ha.
      * inversion Ha. subst. discriminate Hret.
      * destruct (_socket (instance w)) eqn:Hs; inversion Ha; subst;
          [discriminate Hret | exact Hs].
      * destruct (_socket (instance w)); inversion Ha; subst; discriminate Hret.
      * inversion Ha. reflexivity.
      * inversion Ha. subst. apply H2, Hback. reflexivity.
Qed.

(** One call alone is [disconnect]. *)
Lemma interleave_alone :
  forall s,
    fst (interleave [0; 0; 0; 0] [AtStop] (fresh s)) = [Returned]
    /\ instance (snd (interleave [0; 0; 0; 0] [AtStop] (fresh s)))
       = snd (disconnect s).
Proof.
  intros [sk d r e st t]. rewrite disconnect_eq. unfold after_disconnect.
  destruct sk as [[[x|]]|]; cbn; unfold emit, set_socket, set_event_stop; cbn;
    rewrite <- ?app_assoc; split; reflexivity.
Qed.

Section Overlap.

Variable lib : pylib.

(** C9, as the code has it.  Calls of [disconnect] that run one after
    another, before or after a whole conversation, never raise, write the
    stop flag before they close, change no attribute from the second call
    on and close the socket at most once in all.  Calls that overlap are
    scheduled step by step: one call alone does what [disconnect] does;
    however many calls are interleaved, each closes at most once, so the
    number of closes is at most the number of calls; a failing or impossible
    [close] is only logged; and once all calls returned, the stop flag is
    set and the instance holds no socket. *)
Theorem disconnect_closes_once_per_call :
  forall (s : client) (n : nat) (p : params) (net : network) (k m : nat)
         (schedule : list nat) (calls : nat),
    (fst (disconnect s) = Ok tt
     /\ trace (snd (disconnect s)) = trace s ++ EvStop :: close_events (_socket s)
     /\ attributes (snd (disconnect s)) = (None, _data s, _result s, _error s, true)
     /\ attributes (snd (disconnect (snd (disconnect s)))) = attributes (snd (disconnect s))
     /\ attributes (disconnect_times (S n) s) = attributes (snd (disconnect s))
     /\ closes (trace (disconnect_times n s)) <= closes (trace s) + 1
     /\ closes (trace (disconnect_times n (snd (disconnect s))))
        = closes (trace (snd (disconnect s)))
     /\ fst (run lib p net (disconnect_times k new_client)) = Ok tt
     /\ closes (trace (disconnect_times m
                         (snd (run lib p net (disconnect_times k new_client))))) <= 1)
    /\ (fst (interleave [0; 0; 0; 0] [AtStop] (fresh s)) = [Returned]
        /\ instance (snd (interleave [0; 0; 0; 0] [AtStop] (fresh s)))
           = snd (disconnect s))
    /\ (let r := interleave schedule (repeat AtStop calls) (fresh s) in
        closes (trace (instance (snd r))) <= closes (trace s) + calls
        /\ (calls <> 0 -> forallb has_returned (fst r) = true ->
            _socket (instance (snd r)) = None
            /\ _event_stop (instance (snd r)) = true)).
Proof.
  intros s n p net k m schedule calls.
  split; [apply disconnect_one_after_another|]. split; [apply interleave_alone|].
  cbv zeta. split.
  - pose proof (interleave_closes schedule (repeat AtStop calls) (fresh s)) as H.
    rewrite owed_repeat in H. cbn [instance fresh] in H. lia.
  - intros Hc Hall.
    destruct (interleave_settles schedule (repeat AtStop calls) (fresh s)) as [H1 H2].
    + intros H. exfalso. clear -H. induction calls as [|c IH]; cbn in H;
        [discriminate H | exact (IH H)].
    + intros H. destruct calls as [|c]; [contradiction | discriminate H].
    + split; [exact (H2 Hall)|]. apply H1.
      destruct (fst (interleave schedule (repeat AtStop calls) (fresh s)))
        as [|pl rest] eqn:E.
      * exfalso. apply Hc. clear -E.
        assert (Hlen : forall sch cs w,
                   length (fst (interleave sch cs w)) = length cs).
        { assert (Hput : forall cs i pl, length (put i pl cs) = length cs).
          { induction cs as [|x cs IHc]; intros [|i] pl; cbn; try reflexivity.
            rewrite IHc. reflexivity. }
          induction sch as [|i sch IHs]; intros cs w; cbn [interleave];
            [reflexivity|].
          destruct (nth_error cs i) as [pl|]; [|apply IHs].
          destruct (advance pl w) as [pl' w']. rewrite IHs. apply Hput. }
        pose proof (Hlen schedule (repeat AtStop calls) (fresh s)) as H.
        rewrite E, repeat_length in H. cbn in H. lia.
      * cbn in Hall. apply andb_true_iff in Hall. destruct Hall as [Hr _].
        cbn. destruct pl; try discriminate Hr. reflexivity.
Qed.

End Overlap.

(** C9, counterexample.  Two calls on a connected instance, taking turns step
    by step: both pass the test of the socket before either writes [None],
    and both call [close]. *)
Lemma overlapping_calls_close_twice : ~ closes_at_most_once.
Proof.
  intro H.
  specialize (H [0; 1; 0; 1; 0; 1; 0; 1] 2 connected).
  vm_compute in H. lia.
Qed.

(** C9, witness: the same two calls.  Both returned; the stop flag is set and
    the instance holds no socket. *)
Lemma disconnect_closes_once_per_call_witness :
  _socket (instance (snd (interleave [0; 1; 0; 1; 0; 1; 0; 1]
                            (repeat AtStop 2) (fresh connected)))) = None
  /\ _event_stop (instance (snd (interleave [0; 1; 0; 1; 0; 1; 0; 1]
                                   (repeat AtStop 2) (fresh connected)))) = true.
Proof.
  pose proof (disconnect_closes_once_per_call cpython_ascii connected 0 location
                (server []) 0 0 [0; 1; 0; 1; 0; 1; 0; 1] 2) as H.
  destruct H as (_ & _ & _ & H).
  exact (H (fun E => O_S 1 (eq_sym E)) eq_refl).
Defined.
